(** * The proxy service: routing, retry and forwarding

    A shallow embedding of [ProxyConfig] and of the class [ProxyService]
    (the third document of
    [src/legacy/ui/public/vis/editors/default/components/drag_and_drop.js]).

    Conventions of the embedding.
    - JavaScript numbers that the service handles ([retryCount], [maxRetry],
      [requestBackoff], [port]) are integers in every run considered here and
      are modelled as [Z]; a double represents every integer of magnitude
      below 2^53 exactly, so [++retryCount] is [retryCount + 1] and [<=] is
      [Z.leb].
    - A promise is modelled by the way it settles: fulfilled with a value,
      rejected with an error message, or never settled.
    - Everything the service does to the outside world (routing-store
      look-ups, log lines, timers, backend calls) is recorded, in program
      order, in a trace of events.
    - What belongs to the platform and not to the repository (the parser
      behind the [hostname] setter of a URL, the HTTP client library) is a
      parameter of the model: the dispatcher is defined, and its properties
      are proved, for every such parser and every such client.
    - The instance [this] may change while a dispatch waits for its timer
      (a configuration update, a change of the routing table), so a dispatch
      reads [this] from a sequence of instances indexed by the number of
      timers that have fired. *)

From Stdlib Require Import ZArith Lia Ascii String.
From stdpp Require Import base option list strings pretty gmap fin_maps.

Set Warnings "-register-all".

Open Scope Z_scope.
Open Scope string_scope.

(** ** JavaScript values that cross the boundary of the service *)

Inductive JsVal : Type :=
  | VUndefined
  | VNum (z : Z)
  | VStr (s : string)
  | VBuffer (bytes : string)
  | VArr (items : list JsVal).

(** How a promise ends. [OutOfFuel] is an artefact of the embedding: the
    recursion of [proxyRequest] is bounded by a fuel argument, and
    [proxyRequest_fuel_enough] shows when the fuel suffices. *)
Inductive Settled : Type :=
  | Fulfilled (v : JsVal)
  | Rejected (message : string)
  | NeverSettles
  | OutOfFuel.

(** ** Data model *)

(** Modelled from the spec: the enumeration [RouteState] of [./cluster_doc],
    of which the service names only [Initializing]; every other state is
    "ready", whatever its label. *)
Inductive RouteState : Type :=
  | Initializing
  | OtherState (label : string).

Definition is_Initializing (s : RouteState) : bool :=
  match s with Initializing => true | OtherState _ => false end.

(** Modelled from the spec: the record [RoutingNode] of [./cluster_doc]. *)
Record RoutingNode : Type := mkRoutingNode {
  node : string;
  state : RouteState
}.

(** The parts of a WHATWG [URL] object that the dispatcher reads or writes. *)
Record URL : Type := mkURL {
  protocol : string;
  hostname : string;
  urlport : string;
  pathname : string;
  search : string;
  hash : string
}.

(** The URL record with another host, everything else as it was. *)
Definition with_hostname (u : URL) (h : string) : URL :=
  {| protocol := protocol u; hostname := h; urlport := urlport u;
     pathname := pathname u; search := search u; hash := hash u |}.

(** The platform's [URL] class, as far as the service depends on it.  The
    setter [url.hostname = value] runs the URL parser of the URL Standard on
    [value], with the hostname state as its start: the parser either ends
    without a host (the value is empty, begins with a colon, is not a valid
    host, ...) and the URL is left as it was, or it sets the host of the URL
    to the host it has parsed, in its serialized form (lower case, an IPv4
    address in canonical form, ...), and touches nothing else.
    [parse_hostname u value] is the outcome of that parser for the URL [u]:
    [None] when it ends without a host, [Some h] when it sets the host to
    [h].  The parser is the platform's and is a parameter of the model. *)
Record UrlPlatform : Type := mkUrlPlatform {
  parse_hostname : URL -> string -> option string
}.

(** [url.hostname = value] *)
Definition assign_hostname (api : UrlPlatform) (u : URL) (value : string)
  : URL :=
  match parse_hostname api u value with
  | Some h => with_hostname u h
  | None => u
  end.

Definition url_toString (u : URL) : string :=
  protocol u ++ "//" ++ hostname u
    ++ (if decide (urlport u = "") then "" else ":" ++ urlport u)
    ++ pathname u ++ search u ++ hash u.

(** [KibanaRequest], as far as [proxyRequest] looks at it: [url] is the
    value of [new URL(req.url.toString())].  A request whose URL does not
    parse makes that constructor throw before anything else happens; it is
    not a value of this type. *)
Record KibanaRequest : Type := mkRequest {
  route_method : string;
  url : URL;
  headers : list (string * string);
  body : JsVal
}.

(** The options object handed to [wreck.request]. *)
Record RequestOpts : Type := mkOpts {
  opt_headers : list (string * string);
  payload : JsVal
}.

(** Modelled from the spec: the state of [ClusterDocClient] of
    [./cluster_doc] that the service can observe, the store's current view
    of which node owns which resource. *)
Record ClusterDocClient : Type := mkClusterDocClient {
  routingTable : gmap string RoutingNode
}.

(** Modelled from the spec: [ClusterDocClient.getNodeForResource] of
    [./cluster_doc], a synchronous look-up without side effects in the
    store's current view. *)
Definition getNodeForResource (c : ClusterDocClient) (resource : string)
  : option RoutingNode :=
  routingTable c !! resource.

(** The options an agent of [http] or [https] is constructed with. *)
Record Agent : Type := mkAgent {
  keepAlive : bool;
  agent_cert : option string;
  agent_key : option string;
  agent_ca : option string
}.

Definition plainAgent : Agent :=
  {| keepAlive := true; agent_cert := None; agent_key := None;
     agent_ca := None |}.

(** The object that [setup] passes to [Wreck.defaults], under the key
    [agent]. *)
Record WreckAgents : Type := mkWreckAgents {
  https : Agent;
  http : Agent;
  httpsAllowUnauthorized : Agent
}.

(** The HTTP client library.  [request defaults method url opts] is
    [wreck.request(method, url, opts)] on the instance that
    [Wreck.defaults] made of [defaults] ([None]: on the module [Wreck]
    itself); it answers with a response or fails with the message of the
    error.  [read] collects the payload of a response or fails. *)
Record WreckClient : Type := mkWreck {
  Response : Type;
  request :
    option WreckAgents -> string -> string -> RequestOpts -> string + Response;
  read : Response -> string + string
}.

Inductive Subscription : Type := ConfigSubscription.

(** The validated configuration, [ProxyPluginType]. *)
Module Config.
Record t : Type := mk {
  updateInterval : Z;
  timeoutThreshold : Z;
  port : Z;
  maxRetry : Z;
  requestBackoff : Z;
  cert : string;
  key : string;
  ca : string;
  cipherSuites : list string;
  supportedProtocols : list string
}.
End Config.

(** The instance fields of [ProxyService]; [wreck = None] is the module
    [Wreck] without defaults. *)
Record ProxyService : Type := mkProxyService {
  configSubscription : option Subscription;
  clusterDocClient : ClusterDocClient;
  maxRetry : Z;
  requestBackoff : Z;
  port : Z;
  httpsAgent : Agent;
  httpAgent : Agent;
  allowUnauthAgent : Agent;
  wreck : option WreckAgents
}.

(** The field initialisers and the constructor. *)
Definition new_ProxyService (c : ClusterDocClient) : ProxyService :=
  {| configSubscription := None; clusterDocClient := c;
     maxRetry := 0; requestBackoff := 0; port := 0;
     httpsAgent := plainAgent; httpAgent := plainAgent;
     allowUnauthAgent := plainAgent; wreck := None |}.

Inductive Event : Type :=
  | GetNodeForResource (resource : string)
  | LogDebug (msg : string)
  | LogWarn (msg : string)
  | SetTimeout (ms : Z)
  | WreckRequest (defaults : option WreckAgents) (method : string)
      (target : string) (opts : RequestOpts)
  | WreckRead
  | UnhandledRejection (msg : string).

(** ** [ProxyService.proxyRequest] *)

(** [resource || url.pathname]: [undefined] and the empty string are falsy. *)
Definition effective_resource (resource : option string) (u : URL) : string :=
  match resource with
  | None => pathname u
  | Some r => if decide (r = "") then pathname u else r
  end.

Definition no_node_msg (resource : string) : string :=
  "No node was found for resource " ++ resource.

Definition still_starting_msg (n : RoutingNode) (retryCount : Z) (this : ProxyService)
  : string :=
  node n ++ " is still starting retry " ++ pretty retryCount ++ "/"
    ++ pretty (maxRetry this) ++ " in " ++ pretty (requestBackoff this).

Definition max_retries_msg : string :=
  "maxRetries exceeded and node has not yet initialized".

Definition unable_msg (n : RoutingNode) (resource cause : string) : string :=
  "Unable to complete request to " ++ node n ++ " for " ++ resource
    ++ " because " ++ cause.

(** The end of [proxyRequest]: the assignment to [url.hostname] and the
    [try]/[catch].  The call is made on [this.wreck].  Only the awaited
    [wreck.request] is inside the reach of [catch]; the promise of
    [Wreck.read] is returned without being awaited. *)
Definition forward (api : UrlPlatform) (client : WreckClient)
    (this : ProxyService) (req : KibanaRequest) (n : RoutingNode)
    (resource : string) : Settled * list Event :=
  let target := url_toString (assign_hostname api (url req) (node n)) in
  let opts := {| opt_headers := headers req; payload := body req |} in
  let call := WreckRequest (wreck this) (route_method req) target opts in
  match request client (wreck this) (route_method req) target opts with
  | inl cause =>
      let msg := unable_msg n resource cause in
      (Rejected msg, [call; LogWarn msg])
  | inr res =>
      match read client res with
      | inl cause => (Rejected cause, [call; WreckRead])
      | inr data => (Fulfilled (VBuffer data), [call; WreckRead])
      end
  end.

(** The promise built around [setTimeout] in the retry branch: the timer
    callback awaits the nested call and then calls [resolve()] without an
    argument; when the nested call rejects, the callback's own promise
    rejects, nobody handles it, and [resolve] is never called. *)
Definition after_retry (inner : Settled * list Event) : Settled * list Event :=
  match inner with
  | (Fulfilled _, tr) => (Fulfilled VUndefined, tr)
  | (Rejected msg, tr) => (NeverSettles, (tr ++ [UnhandledRejection msg])%list)
  | (NeverSettles, tr) => (NeverSettles, tr)
  | (OutOfFuel, tr) => (OutOfFuel, tr)
  end.

(** [proxyRequest(req, resource, retryCount)], started when [this] is
    [env now]; each timer that fires moves the time index by one. *)
Fixpoint proxyRequest (fuel : nat) (api : UrlPlatform) (client : WreckClient)
    (env : nat -> ProxyService) (now : nat) (req : KibanaRequest)
    (resource : option string) (retryCount : Z) : Settled * list Event :=
  let this := env now in
  let resource := effective_resource resource (url req) in
  let lookup := GetNodeForResource resource in
  match getNodeForResource (clusterDocClient this) resource with
  | None =>
      let msg := no_node_msg resource in
      (Rejected msg, [lookup; LogDebug msg])
  | Some n =>
      if is_Initializing (state n) then
        let warn := LogWarn (still_starting_msg n retryCount this) in
        if (retryCount <=? maxRetry this)%Z then
          let wait := SetTimeout (requestBackoff this) in
          match fuel with
          | O => (OutOfFuel, [lookup; warn; wait])
          | S fuel' =>
              let '(r, tr) :=
                after_retry
                  (proxyRequest fuel' api client env (S now) req
                     (Some resource) (retryCount + 1)) in
              (r, lookup :: warn :: wait :: tr)
          end
        else (Rejected max_retries_msg, [lookup; warn])
      else
        let '(r, tr) := forward api client this req n resource in
        (r, lookup :: tr)
  end.

(** [proxyResource(resource)] fixes the resource ahead of time. *)
Definition proxyResource (fuel : nat) (api : UrlPlatform)
    (client : WreckClient)
    (env : nat -> ProxyService) (now : nat) (resource : string)
  : KibanaRequest -> Settled * list Event :=
  fun req => proxyRequest fuel api client env now req (Some resource) 0.

(** Counting in traces. *)
Definition is_lookup (e : Event) : bool :=
  match e with GetNodeForResource _ => true | _ => false end.
Definition is_wait (e : Event) : bool :=
  match e with SetTimeout _ => true | _ => false end.
Definition is_backend_call (e : Event) : bool :=
  match e with WreckRequest _ _ _ _ => true | _ => false end.

Definition count (p : Event -> bool) (tr : list Event) : nat :=
  length (filter (fun e => p e = true) tr).

Definition readiness_checks := count is_lookup.
Definition backoff_waits := count is_wait.
Definition backend_calls := count is_backend_call.

(** ** Life cycle: [setup], [setConfig], [configureSSL], [stop] *)

Definition set_config_fields (this : ProxyService) (p r b : Z) : ProxyService :=
  {| configSubscription := configSubscription this;
     clusterDocClient := clusterDocClient this;
     maxRetry := r; requestBackoff := b; port := p;
     httpsAgent := httpsAgent this; httpAgent := httpAgent this;
     allowUnauthAgent := allowUnauthAgent this; wreck := wreck this |}.

Definition set_configSubscription (this : ProxyService)
    (s : option Subscription) : ProxyService :=
  {| configSubscription := s;
     clusterDocClient := clusterDocClient this;
     maxRetry := maxRetry this; requestBackoff := requestBackoff this;
     port := port this;
     httpsAgent := httpsAgent this; httpAgent := httpAgent this;
     allowUnauthAgent := allowUnauthAgent this; wreck := wreck this |}.

Definition set_httpsAgent (this : ProxyService) (a : Agent) : ProxyService :=
  {| configSubscription := configSubscription this;
     clusterDocClient := clusterDocClient this;
     maxRetry := maxRetry this; requestBackoff := requestBackoff this;
     port := port this;
     httpsAgent := a; httpAgent := httpAgent this;
     allowUnauthAgent := allowUnauthAgent this; wreck := wreck this |}.

Definition set_wreck (this : ProxyService) (w : option WreckAgents)
  : ProxyService :=
  {| configSubscription := configSubscription this;
     clusterDocClient := clusterDocClient this;
     maxRetry := maxRetry this; requestBackoff := requestBackoff this;
     port := port this;
     httpsAgent := httpsAgent this; httpAgent := httpAgent this;
     allowUnauthAgent := allowUnauthAgent this; wreck := w |}.

(** [setConfig(config)] *)
Definition setConfig (this : ProxyService) (config : Config.t) : ProxyService :=
  set_config_fields this (Config.port config) (Config.maxRetry config)
    (Config.requestBackoff config).

(** The argument of [new SslConfig]. *)
Record SslConfig : Type := mkSslConfig {
  enabled : bool;
  redirectHttpFromPort : Z;
  certificate : string;
  ssl_key : string;
  certificateAuthorities : list string;
  ssl_cipherSuites : list string;
  keyPassphrase : option string;
  ssl_supportedProtocols : list string
}.

(** The file system seen by [readFile]: the content of a readable file. *)
Definition FileSystem : Type := string -> option string.

Definition read_error (path : string) : string :=
  "ENOENT: no such file or directory, open '" ++ path ++ "'".

(** [configureSSL(config)]: the three files are read together, and a file
    that cannot be read rejects the whole call before [httpsAgent] is
    touched. *)
Definition configureSSL (fs : FileSystem) (this : ProxyService)
    (config : Config.t) : (string + SslConfig) * ProxyService :=
  match fs (Config.cert config), fs (Config.key config), fs (Config.ca config) with
  | Some tlsCert, Some tlsKey, Some tlsCa =>
      let this' :=
        set_httpsAgent this
          {| keepAlive := true; agent_cert := Some tlsCert;
             agent_key := Some tlsKey; agent_ca := Some tlsCa |} in
      (inr {| enabled := true;
              redirectHttpFromPort := port this';
              certificate := tlsCert;
              ssl_key := tlsKey;
              certificateAuthorities := [tlsCa];
              ssl_cipherSuites := Config.cipherSuites config;
              keyPassphrase := None;
              ssl_supportedProtocols := Config.supportedProtocols config |},
       this')
  | None, _, _ => (inl (read_error (Config.cert config)), this)
  | _, None, _ => (inl (read_error (Config.key config)), this)
  | _, _, None => (inl (read_error (Config.ca config)), this)
  end.

Inductive LifecycleEvent : Type :=
  | ClusterDocSetup
  | ClusterDocStop
  | Subscribe
  | Unsubscribe
  | CreateNewServer (serverPort : Z) (ssl : SslConfig).

(** The callback registered by [this.config$.subscribe]: it runs for every
    configuration the stream emits while the subscription is open. *)
Definition on_config (this : ProxyService) (config : Config.t) : ProxyService :=
  match configSubscription this with
  | Some _ => setConfig this config
  | None => this
  end.

(** The configurations emitted one after the other. *)
Definition emit_all (this : ProxyService) (configs : list Config.t)
  : ProxyService :=
  fold_left on_config configs this.

(** [setup(core, plugins)], where [config] is the first configuration of the
    stream.  The result is the [ssl] of the server that was created, or the
    error that rejected [setup]. *)
Definition setup (fs : FileSystem) (this : ProxyService) (config : Config.t)
  : (string + SslConfig) * ProxyService * list LifecycleEvent :=
  let this := set_configSubscription this (Some ConfigSubscription) in
  let this := on_config this config in
  let this := setConfig this config in
  match configureSSL fs this config with
  | (inl err, this) => (inl err, this, [ClusterDocSetup; Subscribe])
  | (inr ssl, this) =>
      let this :=
        set_wreck this
          (Some {| https := httpsAgent this; http := httpAgent this;
                   httpsAllowUnauthorized := allowUnauthAgent this |}) in
      (inr ssl, this,
       [ClusterDocSetup; Subscribe; CreateNewServer (Config.port config) ssl])
  end.

(** [stop()], when the awaited [clusterDocClient.stop()] resolves. *)
Definition stop (this : ProxyService) : ProxyService * list LifecycleEvent :=
  match configSubscription this with
  | None => (this, [ClusterDocStop])
  | Some _ =>
      (set_configSubscription this None, [ClusterDocStop; Unsubscribe])
  end.

(** ** [ProxyConfig]: the configuration schema *)

Inductive Schema : Type :=
  | SNumber
  | SString
  | SLiteral (value : string)
  | SOneOf (alternatives : list Schema)
  | SArrayOf (item : Schema) (defaultValue : option (list JsVal))
      (minSize : option nat).

(** [o.k] on an object given by its own properties. *)
Definition get_prop (o : gmap string JsVal) (k : string) : JsVal :=
  default VUndefined (o !! k).

(** [String.prototype.split] with a one-character separator. *)
Fixpoint split_on (sep : ascii) (cur : string) (s : string) : list string :=
  match s with
  | EmptyString => [String.rev cur]
  | String c s' =>
      if decide (c = sep) then String.rev cur :: split_on sep EmptyString s'
      else split_on sep (String c cur) s'
  end.

(** [v.split(':')] for a value [v] of any type: a [TypeError] unless [v] is a
    string. *)
Definition js_split_colon (v : JsVal) : string + list string :=
  match v with
  | VStr s => inr (split_on ":"%char EmptyString s)
  | VUndefined => inl "TypeError: Cannot read property 'split' of undefined"
  | _ => inl "TypeError: split is not a function"
  end.

Definition supportedProtocols_schema : Schema :=
  SArrayOf (SOneOf [SLiteral "TLSv1"; SLiteral "TLSv1.1"; SLiteral "TLSv1.2"])
    (Some [VStr "TLSv1.1"; VStr "TLSv1.2"]) (Some 1%nat).

(** The default of [cipherSuites] as the source computes it when the module
    is evaluated. *)
Definition cipherSuites_default (cryptoConstants : gmap string JsVal)
  : string + list string :=
  js_split_colon (get_prop cryptoConstants "defulatCoreCipherList").

Definition cipherSuites_schema (cryptoConstants : gmap string JsVal)
  : string + Schema :=
  match cipherSuites_default cryptoConstants with
  | inl err => inl err
  | inr d => inr (SArrayOf SString (Some (VStr <$> d)) None)
  end.

(** The evaluation of [export const ProxyConfig = { schema: ... }]: the
    object schema, field by field, or the error thrown on the way. *)
Definition ProxyConfig (cryptoConstants : gmap string JsVal)
  : string + list (string * Schema) :=
  match cipherSuites_schema cryptoConstants with
  | inl err => inl err
  | inr cs =>
      inr [("updateInterval", SNumber); ("timeoutThreshold", SNumber);
           ("port", SNumber); ("maxRetry", SNumber);
           ("requestBackoff", SNumber); ("cert", SString); ("key", SString);
           ("ca", SString); ("cipherSuites", cs);
           ("supportedProtocols", supportedProtocols_schema)]
  end.

(** Modelled from the spec: the validation of [@kbn/config-schema], which is
    not part of the source file.  A value is accepted by [schema.literal]
    only when it is that literal, by [schema.oneOf] when one alternative
    accepts it, by [schema.arrayOf] when it is an array of at least [minSize]
    items each of which the item schema accepts; an absent value is replaced
    by [defaultValue]; everything else is a configuration error, reported and
    never dropped. *)
Inductive ConfigError : Type :=
  | ExpectedNumber
  | ExpectedString
  | ExpectedLiteral (value : string)
  | NoAlternativeMatches
  | ExpectedArray
  | ArrayTooShort (minSize : nat)
  | InvalidItem (index : nat) (why : ConfigError).

(** The items of an array, each validated by [f], from index [i] on. *)
Fixpoint validate_each (f : JsVal -> ConfigError + JsVal) (i : nat)
    (xs : list JsVal) : ConfigError + list JsVal :=
  match xs with
  | [] => inr []
  | x :: xs' =>
      match f x with
      | inl e => inl (InvalidItem i e)
      | inr x' =>
          match validate_each f (S i) xs' with
          | inl e => inl e
          | inr r => inr (x' :: r)
          end
      end
  end.

Fixpoint validate (s : Schema) (v : JsVal) {struct s} : ConfigError + JsVal :=
  match s with
  | SNumber => match v with VNum _ => inr v | _ => inl ExpectedNumber end
  | SString => match v with VStr _ => inr v | _ => inl ExpectedString end
  | SLiteral l =>
      match v with
      | VStr x => if decide (x = l) then inr v else inl (ExpectedLiteral l)
      | _ => inl (ExpectedLiteral l)
      end
  | SOneOf alternatives =>
      (fix try (alts : list Schema) : ConfigError + JsVal :=
         match alts with
         | [] => inl NoAlternativeMatches
         | a :: alts' =>
             match validate a v with
             | inr r => inr r
             | inl _ => try alts'
             end
         end) alternatives
  | SArrayOf item defaultValue minSize =>
      match v with
      | VUndefined =>
          match defaultValue with
          | Some d => inr (VArr d)
          | None => inl ExpectedArray
          end
      | VArr items =>
          if (length items <? default 0%nat minSize)%nat
          then inl (ArrayTooShort (default 0%nat minSize))
          else
            match validate_each (validate item) 0 items with
            | inl e => inl e
            | inr r => inr (VArr r)
            end
      | _ => inl ExpectedArray
      end
  end.


(** The fixed allow-list of TLS version labels. *)
Definition tls_labels : list string := ["TLSv1"; "TLSv1.1"; "TLSv1.2"].

Definition is_tls_label (v : JsVal) : bool :=
  match v with
  | VStr s => bool_decide (s ∈ tls_labels)
  | _ => false
  end.

(** [s.includes(c)] for a single character. *)
Fixpoint has_char (c : ascii) (s : string) : bool :=
  match s with
  | EmptyString => false
  | String a s' => if decide (a = c) then true else has_char c s'
  end.

(** ** [mergeTables]: the expression function [lens_merge_tables]

    The second document of the source file.  [fn] fills an object created
    by [{}] with one assignment [resultTables[layerIds[index]] = table] per
    table, in the order of [tables]. *)

(** A plain object, as far as assignments of values of type [T] can change
    it: its own properties and, once an object has been assigned to
    [__proto__], its prototype. *)
Record JsObject (T : Type) : Type := mkJsObject {
  own : gmap string T;
  proto : option T
}.
Arguments mkJsObject {T} _ _.
Arguments own {T} _.
Arguments proto {T} _.

(** [{}] *)
Definition empty_object {T : Type} : JsObject T :=
  {| own := ∅; proto := None |}.

(** The property key of [layerIds[index]]: an index past the end of the
    array reads [undefined], whose key is the string [undefined]. *)
Definition property_key (layerIds : list string) (index : nat) : string :=
  default "undefined" (layerIds !! index).

(** [o[k] = v] for an object [v] on an object that inherits from
    [Object.prototype]: the key [__proto__] reaches the inherited setter and
    replaces the prototype; every other key creates or overwrites an own
    property. *)
Definition js_set {T : Type} (o : JsObject T) (k : string) (v : T)
  : JsObject T :=
  if decide (k = "__proto__") then {| own := own o; proto := Some v |}
  else {| own := <[k:=v]> (own o); proto := proto o |}.

(** [tables.forEach((table, index) => { resultTables[layerIds[index]] =
    table; })], from [index] on. *)
Fixpoint forEach_assign {T : Type} (layerIds : list string) (index : nat)
    (tables : list T) (resultTables : JsObject T) : JsObject T :=
  match tables with
  | [] => resultTables
  | table :: rest =>
      forEach_assign layerIds (S index) rest
        (js_set resultTables (property_key layerIds index) table)
  end.

(** The value of type [lens_multitable] that [fn] returns. *)
Record LensMultiTable (T : Type) : Type := mkLensMultiTable {
  type : string;
  tables : JsObject T
}.
Arguments mkLensMultiTable {T} _ _.
Arguments type {T} _.
Arguments tables {T} _.

Module mergeTables.

Definition name : string := "lens_merge_tables".

(** [fn(_ctx, { layerIds, tables })], for tables of any shape [T]. *)
Definition fn {T : Type} (layerIds : list string) (tables : list T)
  : LensMultiTable T :=
  {| type := "lens_multitable";
     tables := forEach_assign layerIds 0 tables empty_object |}.

End mergeTables.

(** * Scenarios and statements of the specification *)

(** ** Fixtures: the scenario of resource [r1] on node [n1] *)

Module Scenario.

(** A backend that answers every request with the payload [hello]. *)
Definition healthy : WreckClient :=
  {| Response := string;
     request := fun _ _ _ _ => inr "200 OK";
     read := fun _ => inr "hello" |}.

(** A backend that refuses every connection. *)
Definition refusing : WreckClient :=
  {| Response := string;
     request := fun _ _ _ _ => inl "connect ECONNREFUSED";
     read := fun _ => inr "" |}.

(** A backend that answers the request and drops the connection while the
    payload is read. *)
Definition resetting : WreckClient :=
  {| Response := string;
     request := fun _ _ _ _ => inr "200 OK";
     read := fun _ => inl "socket hang up" |}.

(** A label of lower-case letters and digits that begins with a letter. *)
Definition is_lower (c : ascii) : bool :=
  (97 <=? nat_of_ascii c)%nat && (nat_of_ascii c <=? 122)%nat.

Definition is_digit (c : ascii) : bool :=
  (48 <=? nat_of_ascii c)%nat && (nat_of_ascii c <=? 57)%nat.

Fixpoint all_lower_or_digit (s : string) : bool :=
  match s with
  | EmptyString => true
  | String c s' => (is_lower c || is_digit c) && all_lower_or_digit s'
  end.

Definition is_plain_label (s : string) : bool :=
  match s with
  | EmptyString => false
  | String c s' =>
      is_lower c && all_lower_or_digit s' && (String.length s <=? 63)%nat
  end.

(** The hostname parser of the platform on the values that the scenarios
    assign to the host of an [http:] or [https:] URL.  A plain label is a
    host as it is written.  A value that begins with a colon has nothing
    before the place where a port would start, and the parser ends without
    a host; so it does on the empty value.  On every other value, and on
    URLs of other schemes, this function does not stand for the platform,
    and no scenario uses it there. *)
Definition plain_hosts : UrlPlatform :=
  {| parse_hostname := fun u value =>
       if bool_decide (protocol u = "http:" \/ protocol u = "https:")
          && is_plain_label value
       then Some value
       else None |}.

Definition service (table : gmap string RoutingNode) : ProxyService :=
  {| configSubscription := Some ConfigSubscription;
     clusterDocClient := {| routingTable := table |};
     maxRetry := 2; requestBackoff := 50; port := 5601;
     httpsAgent := plainAgent; httpAgent := plainAgent;
     allowUnauthAgent := plainAgent; wreck := None |}.

Definition starting : gmap string RoutingNode :=
  {[ "r1" := {| node := "n1"; state := Initializing |} ]}.

Definition ready : gmap string RoutingNode :=
  {[ "r1" := {| node := "n1"; state := OtherState "Started" |} ]}.

(** [n1] never leaves [Initializing]. *)
Definition never_ready (t : nat) : ProxyService := service starting.

(** [n1] is ready from the start. *)
Definition always_ready (t : nat) : ProxyService := service ready.

(** [n1] becomes ready during the first backoff. *)
Definition ready_after_first_wait (t : nat) : ProxyService :=
  match t with O => service starting | S _ => service ready end.

(** Nothing is assigned. *)
Definition unassigned (t : nat) : ProxyService := service ∅.


Definition req : KibanaRequest :=
  {| route_method := "post";
     url := {| protocol := "https:"; hostname := "gateway"; urlport := "5601";
               pathname := "/r1"; search := "?pretty"; hash := "" |};
     headers := [("content-type", "application/json")];
     body := VStr "{}" |}.

End Scenario.

(** The files and configurations of two credential sets. *)
Module TlsScenario.

Definition fs : FileSystem := fun path =>
  if decide (path = "/etc/proxy/a.crt") then Some "CERT A"
  else if decide (path = "/etc/proxy/a.key") then Some "KEY A"
  else if decide (path = "/etc/proxy/a-ca.pem") then Some "CA A"
  else if decide (path = "/etc/proxy/b.crt") then Some "CERT B"
  else if decide (path = "/etc/proxy/b.key") then Some "KEY B"
  else if decide (path = "/etc/proxy/b-ca.pem") then Some "CA B"
  else None.

Definition configA : Config.t :=
  {| Config.updateInterval := 1000; Config.timeoutThreshold := 5000;
     Config.port := 5602; Config.maxRetry := 2; Config.requestBackoff := 50;
     Config.cert := "/etc/proxy/a.crt"; Config.key := "/etc/proxy/a.key";
     Config.ca := "/etc/proxy/a-ca.pem";
     Config.cipherSuites := ["ECDHE-RSA-AES128-GCM-SHA256"];
     Config.supportedProtocols := ["TLSv1.1"; "TLSv1.2"] |}.

Definition configB : Config.t :=
  {| Config.updateInterval := 1000; Config.timeoutThreshold := 5000;
     Config.port := 5603; Config.maxRetry := 5; Config.requestBackoff := 200;
     Config.cert := "/etc/proxy/b.crt"; Config.key := "/etc/proxy/b.key";
     Config.ca := "/etc/proxy/b-ca.pem";
     Config.cipherSuites := ["ECDHE-RSA-AES128-GCM-SHA256"];
     Config.supportedProtocols := ["TLSv1.2"] |}.

Definition fresh : ProxyService :=
  new_ProxyService {| routingTable := ∅ |}.

End TlsScenario.

(** What the specification asks of a service set up with [first] after the
    stream has emitted [later]: the three fields and the TLS material of
    the service both follow the latest configuration. *)
Definition tls_follows_every_config (fs : FileSystem) (this0 : ProxyService)
    (first : Config.t) (later : list Config.t) : Prop :=
  forall ssl this events,
    setup fs this0 first = (inr ssl, this, events) ->
    let final := emit_all this later in
    let latest := List.last later first in
    port final = Config.port latest
    /\ maxRetry final = Config.maxRetry latest
    /\ requestBackoff final = Config.requestBackoff latest
    /\ agent_cert (httpsAgent final) = fs (Config.cert latest)
    /\ agent_key (httpsAgent final) = fs (Config.key latest)
    /\ agent_ca (httpsAgent final) = fs (Config.ca latest).


(** The order the specification gives for [stop()]: the configuration
    stream is left first, the routing store is stopped second. *)
Definition stop_unsubscribes_first (this : ProxyService) : Prop :=
  (stop this).2 = [Unsubscribe; ClusterDocStop].

(** The constants object of the platform's [crypto] module, as far as the
    source file names its properties: the three option bits of
    [protocolMap] and the cipher list. *)
Definition node_crypto_constants : gmap string JsVal :=
  list_to_map
    [("SSL_OP_NO_TLSv1", VNum 67108864);
     ("SSL_OP_NO_TLSv1_1", VNum 268435456);
     ("SSL_OP_NO_TLSv1_2", VNum 134217728);
     ("defaultCoreCipherList",
      VStr "TLS_AES_256_GCM_SHA384:TLS_AES_128_GCM_SHA256:ECDHE-RSA-AES128-GCM-SHA256:!aNULL");
     ("defaultCipherList",
      VStr "TLS_AES_256_GCM_SHA384:TLS_AES_128_GCM_SHA256:ECDHE-RSA-AES128-GCM-SHA256:!aNULL")].

(** * Properties *)

(** ** Traces *)

Lemma count_nil p : count p [] = 0%nat.
Proof. reflexivity. Qed.

Lemma count_cons p e tr :
  count p (e :: tr) = ((if p e then 1 else 0) + count p tr)%nat.
Proof.
  unfold count. rewrite filter_cons.
  destruct (p e); case_decide; simpl; congruence.
Qed.

Lemma count_app p tr1 tr2 :
  count p (tr1 ++ tr2) = (count p tr1 + count p tr2)%nat.
Proof. unfold count. by rewrite filter_app, length_app. Qed.

Create Rewrite HintDb trace.
#[local] Hint Rewrite count_nil count_cons count_app : trace.

Ltac count_events :=
  simpl; unfold readiness_checks, backoff_waits, backend_calls;
  autorewrite with trace; simpl.


(** ** [proxyRequest]: general facts *)

Section Dispatch.

Variable api : UrlPlatform.
Variable client : WreckClient.
Variable env : nat -> ProxyService.
Variable req : KibanaRequest.

Lemma forward_one_backend_call this n resource :
  backend_calls (forward api client this req n resource).2 = 1%nat.
Proof.
  unfold forward.
  destruct (request client _ _ _ _) as [cause|res]; simpl.
  - reflexivity.
  - destruct (read client res); reflexivity.
Qed.

Lemma forward_no_wait this n resource :
  backoff_waits (forward api client this req n resource).2 = 0%nat.
Proof.
  unfold forward.
  destruct (request client _ _ _ _) as [cause|res]; simpl.
  - reflexivity.
  - destruct (read client res); reflexivity.
Qed.

Lemma after_retry_backend_calls r :
  backend_calls (after_retry r).2 = backend_calls r.2.
Proof.
  destruct r as [[v|msg| |] tr]; simpl; try reflexivity.
  count_events. lia.
Qed.

(** No dispatch, however many times it retries, calls the backend twice. *)
Lemma backend_calls_le_1 fuel now resource retryCount :
  (backend_calls (proxyRequest fuel api client env now req resource retryCount).2
   <= 1)%nat.
Proof.
  revert now resource retryCount.
  induction fuel as [|fuel IH]; intros now resource retryCount; simpl;
    destruct (getNodeForResource _ _) as [n|]; simpl;
    try (count_events; lia);
    destruct (is_Initializing (state n)); simpl.
  - destruct (_ <=? _)%Z; count_events; lia.
  - pose proof (forward_one_backend_call (env now) n
      (effective_resource resource (url req))) as Hf.
    destruct (forward _ _ _ _ _ _) as [r tr]; simpl in *.
    revert Hf. count_events. lia.
  - destruct (_ <=? _)%Z; [|count_events; lia].
    specialize (IH (S now)
      (Some (effective_resource resource (url req))) (retryCount + 1)).
    rewrite <- after_retry_backend_calls in IH.
    destruct (after_retry _) as [r tr]; simpl in *.
    revert IH. count_events. lia.
  - pose proof (forward_one_backend_call (env now) n
      (effective_resource resource (url req))) as Hf.
    destruct (forward _ _ _ _ _ _) as [r tr]; simpl in *.
    revert Hf. count_events. lia.
Qed.

End Dispatch.

(** ** A resource without a node *)

(** C4. When the routing store has no entry for the effective resource,
    [proxyRequest] rejects at once with the message "No node was found for
    resource ..." naming that resource; it has made one look-up, no backend
    call, and has set no timer, so nothing is retried. *)
Theorem proxyRequest_no_node
    (fuel : nat) (api : UrlPlatform) (client : WreckClient)
    (env : nat -> ProxyService)
    (now : nat) (req : KibanaRequest) (resource : option string)
    (retryCount : Z) :
  getNodeForResource (clusterDocClient (env now))
    (effective_resource resource (url req)) = None ->
  let r := effective_resource resource (url req) in
  let run := proxyRequest fuel api client env now req resource retryCount in
  run = (Rejected ("No node was found for resource " ++ r),
         [GetNodeForResource r; LogDebug ("No node was found for resource " ++ r)])
  /\ backend_calls run.2 = 0%nat
  /\ backoff_waits run.2 = 0%nat
  /\ readiness_checks run.2 = 1%nat.
Proof.
  intros Hnone r run.
  assert (Hrun : run = (Rejected (no_node_msg r),
                        [GetNodeForResource r; LogDebug (no_node_msg r)])).
  { subst run r. destruct fuel; simpl; rewrite Hnone; reflexivity. }
  rewrite Hrun. repeat split.
Qed.

Lemma proxyRequest_no_node_witness :
  let run := proxyRequest 0 Scenario.plain_hosts Scenario.healthy
               Scenario.unassigned 0
               Scenario.req (Some "r1") 0 in
  run = (Rejected "No node was found for resource r1",
         [GetNodeForResource "r1";
          LogDebug "No node was found for resource r1"])
  /\ backend_calls run.2 = 0%nat
  /\ backoff_waits run.2 = 0%nat
  /\ readiness_checks run.2 = 1%nat.
Proof.
  apply (proxyRequest_no_node 0 Scenario.plain_hosts Scenario.healthy Scenario.unassigned 0
           Scenario.req (Some "r1") 0).
  reflexivity.
Defined.

(** ** A resource whose node is ready *)




(** The target of the scenario, spelled out. *)
Example ready_scenario_run :
  proxyRequest 0 Scenario.plain_hosts Scenario.healthy Scenario.always_ready 0 Scenario.req
    (Some "r1") 0
  = (Fulfilled (VBuffer "hello"),
     [GetNodeForResource "r1";
      WreckRequest None "post" "https://n1:5601/r1?pretty"
        {| opt_headers := [("content-type", "application/json")];
           payload := VStr "{}" |};
      WreckRead]).
Proof. reflexivity. Qed.

(** ** A backend that cannot be reached *)

(** X17. When the node is ready and [wreck.request] fails with a
    connection-level error, the dispatch rejects with "Unable to complete
    request to <node> for <resource> because <cause>"; that one backend call
    is the only one, no timer is set, and the failure is logged as a
    warning: it is not retried. *)
Theorem proxyRequest_transport_failure
    (fuel : nat) (api : UrlPlatform) (client : WreckClient)
    (env : nat -> ProxyService)
    (now : nat) (req : KibanaRequest) (resource : option string)
    (retryCount : Z) (n : RoutingNode) (cause : string) :
  getNodeForResource (clusterDocClient (env now))
    (effective_resource resource (url req)) = Some n ->
  is_Initializing (state n) = false ->
  request client (wreck (env now)) (route_method req)
    (url_toString (assign_hostname api (url req) (node n)))
    {| opt_headers := headers req; payload := body req |} = inl cause ->
  let r := effective_resource resource (url req) in
  let msg := "Unable to complete request to " ++ node n ++ " for " ++ r
               ++ " because " ++ cause in
  let run := proxyRequest fuel api client env now req resource retryCount in
  run = (Rejected msg,
         [GetNodeForResource r;
          WreckRequest (wreck (env now)) (route_method req)
            (url_toString (assign_hostname api (url req) (node n)))
            {| opt_headers := headers req; payload := body req |};
          LogWarn msg])
  /\ backend_calls run.2 = 1%nat
  /\ backoff_waits run.2 = 0%nat
  /\ readiness_checks run.2 = 1%nat.
Proof.
  intros Hnode Hinit Hfail r msg run.
  assert (Hrun : run = (Rejected msg,
         [GetNodeForResource r;
          WreckRequest (wreck (env now)) (route_method req)
            (url_toString (assign_hostname api (url req) (node n)))
            {| opt_headers := headers req; payload := body req |};
          LogWarn msg])).
  { subst run r msg. destruct fuel; simpl; rewrite Hnode, Hinit;
      unfold forward; rewrite Hfail; reflexivity. }
  rewrite Hrun. repeat split.
Qed.

Lemma proxyRequest_transport_failure_witness :
  let run := proxyRequest 0 Scenario.plain_hosts Scenario.refusing
               Scenario.always_ready 0
               Scenario.req (Some "r1") 0 in
  run = (Rejected
           "Unable to complete request to n1 for r1 because connect ECONNREFUSED",
         [GetNodeForResource "r1";
          WreckRequest None "post" "https://n1:5601/r1?pretty"
            {| opt_headers := [("content-type", "application/json")];
               payload := VStr "{}" |};
          LogWarn
            "Unable to complete request to n1 for r1 because connect ECONNREFUSED"])
  /\ backend_calls run.2 = 1%nat
  /\ backoff_waits run.2 = 0%nat
  /\ readiness_checks run.2 = 1%nat.
Proof.
  apply (proxyRequest_transport_failure 0 Scenario.plain_hosts Scenario.refusing
           Scenario.always_ready 0 Scenario.req (Some "r1") 0
           {| node := "n1"; state := OtherState "Started" |}
           "connect ECONNREFUSED").
  - reflexivity.
  - reflexivity.
  - reflexivity.
Defined.

(** A failure while the payload is read is not inside the reach of [catch]:
    the promise of [Wreck.read] is returned as it is, and its error reaches
    the caller without the node and the resource. *)
Lemma forward_read_failure (api : UrlPlatform) (client : WreckClient)
    (this : ProxyService) (req : KibanaRequest)
    (n : RoutingNode) (resource cause : string) (res : Response client) :
  request client (wreck this) (route_method req)
    (url_toString (assign_hostname api (url req) (node n)))
    {| opt_headers := headers req; payload := body req |} = inr res ->
  read client res = inl cause ->
  (forward api client this req n resource).1 = Rejected cause.
Proof. intros Hreq Hread. unfold forward. rewrite Hreq, Hread. reflexivity. Qed.

(** On a ready node, a failure while the payload is read rejects the call
    with the error of [Wreck.read] as it is. *)
Lemma proxyRequest_read_failure_unwrapped
    (fuel : nat) (api : UrlPlatform) (client : WreckClient)
    (env : nat -> ProxyService) (now : nat) (req : KibanaRequest)
    (resource : option string) (retryCount : Z) (n : RoutingNode)
    (res : Response client) (cause : string) :
  getNodeForResource (clusterDocClient (env now))
    (effective_resource resource (url req)) = Some n ->
  is_Initializing (state n) = false ->
  request client (wreck (env now)) (route_method req)
    (url_toString (assign_hostname api (url req) (node n)))
    {| opt_headers := headers req; payload := body req |} = inr res ->
  read client res = inl cause ->
  (proxyRequest fuel api client env now req resource retryCount).1
  = Rejected cause.
Proof.
  intros Hnode Hinit Hreq Hread.
  destruct fuel; simpl; rewrite Hnode, Hinit; unfold forward;
    rewrite Hreq, Hread; reflexivity.
Qed.

(** C6. Two transport failures of the forwarded call after which the caller
    has no error that names the node, the resource and the cause.  In the
    first, the node is ready and the backend drops the connection while the
    payload is read: the promise of [Wreck.read] is returned without being
    awaited, its rejection passes by the [catch], and the caller gets the
    bare "socket hang up".  In the second, the node becomes ready during the
    first backoff and the backend refuses the connection of the retried
    attempt: the "Unable to complete request" error is thrown inside the
    timer callback and the promise of the caller never settles. *)
Theorem transport_failure_escapes_scenario :
  proxyRequest 0 Scenario.plain_hosts Scenario.resetting Scenario.always_ready
    0 Scenario.req (Some "r1") 0
  = (Rejected "socket hang up",
     [GetNodeForResource "r1";
      WreckRequest None "post" "https://n1:5601/r1?pretty"
        {| opt_headers := [("content-type", "application/json")];
           payload := VStr "{}" |};
      WreckRead])
  /\ proxyRequest 1 Scenario.plain_hosts Scenario.refusing
       Scenario.ready_after_first_wait 0 Scenario.req (Some "r1") 0
     = (NeverSettles,
        [GetNodeForResource "r1";
         LogWarn "n1 is still starting retry 0/2 in 50";
         SetTimeout 50;
         GetNodeForResource "r1";
         WreckRequest None "post" "https://n1:5601/r1?pretty"
           {| opt_headers := [("content-type", "application/json")];
              payload := VStr "{}" |};
         LogWarn
           "Unable to complete request to n1 for r1 because connect ECONNREFUSED";
         UnhandledRejection
           "Unable to complete request to n1 for r1 because connect ECONNREFUSED"]).
Proof. vm_compute. split; reflexivity. Qed.

(** ** Retrying while the node initializes *)

Lemma effective_resource_idem (resource : option string) (u : URL) :
  effective_resource (Some (effective_resource resource u)) u
  = effective_resource resource u.
Proof.
  unfold effective_resource at 1.
  case_decide as Hempty; [|reflexivity].
  destruct resource as [s|]; simpl in *; [|congruence].
  case_decide; congruence.
Qed.

Lemma after_retry_counts (p : Event -> bool) (r : Settled * list Event) :
  (forall msg, p (UnhandledRejection msg) = false) ->
  count p (after_retry r).2 = count p r.2.
Proof.
  intros Hp. destruct r as [[v|msg| |] tr]; simpl; try reflexivity.
  rewrite count_app, count_cons, Hp, count_nil. lia.
Qed.

Lemma after_retry_outcome (r : Settled * list Event) :
  (after_retry r).1 =
    match r.1 with
    | Fulfilled _ => Fulfilled VUndefined
    | Rejected _ => NeverSettles
    | other => other
    end.
Proof. destruct r as [[v|msg| |] tr]; reflexivity. Qed.

Lemma forward_settles (api : UrlPlatform) (client : WreckClient)
    (this : ProxyService) (req : KibanaRequest)
    (n : RoutingNode) (resource : string) :
  (forward api client this req n resource).1 <> OutOfFuel.
Proof.
  unfold forward.
  destruct (request client _ _ _ _) as [cause|res]; [|destruct (read client res)];
    discriminate.
Qed.

(** The recursion ends: when [maxRetry] stays at or below [m] during the
    dispatch, [m + 1 - retryCount] units of fuel are enough. *)
Lemma proxyRequest_fuel_enough (api : UrlPlatform) (client : WreckClient)
    (env : nat -> ProxyService) (req : KibanaRequest) (m : Z) :
  (forall t, maxRetry (env t) <= m) ->
  forall (fuel now : nat) (resource : option string) (retryCount : Z),
    (Z.to_nat (m + 1 - retryCount) <= fuel)%nat ->
    (proxyRequest fuel api client env now req resource retryCount).1 <> OutOfFuel.
Proof.
  intros Hmax fuel.
  induction fuel as [|fuel IH]; intros now resource retryCount Hfuel; simpl;
    (destruct (getNodeForResource _ _) as [n|]; [|discriminate]);
    (destruct (is_Initializing (state n));
      [|pose proof (forward_settles api client (env now) req n
                      (effective_resource resource (url req)));
        destruct (forward _ _ _ _ _ _); assumption]);
    destruct (Z.leb_spec retryCount (maxRetry (env now))) as [Hle|Hgt];
    try discriminate.
  - specialize (Hmax now). lia.
  - specialize (Hmax now).
    specialize (IH (S now) (Some (effective_resource resource (url req)))
                  (retryCount + 1)).
    assert (Hfuel' : (Z.to_nat (m + 1 - (retryCount + 1)) <= fuel)%nat) by lia.
    specialize (IH Hfuel').
    destruct (proxyRequest fuel api client env (S now) req _ _) as [[v|msg| |] tr];
      simpl in *; congruence.
Qed.

(** One step of [proxyRequest], whatever the fuel. *)
Lemma proxyRequest_eq (fuel : nat) (api : UrlPlatform) (client : WreckClient)
    (env : nat -> ProxyService) (now : nat) (req : KibanaRequest)
    (resource : option string) (retryCount : Z) :
  proxyRequest fuel api client env now req resource retryCount =
  match getNodeForResource (clusterDocClient (env now))
          (effective_resource resource (url req)) with
  | None =>
      (Rejected (no_node_msg (effective_resource resource (url req))),
       [GetNodeForResource (effective_resource resource (url req));
        LogDebug (no_node_msg (effective_resource resource (url req)))])
  | Some n =>
      if is_Initializing (state n) then
        if (retryCount <=? maxRetry (env now))%Z then
          match fuel with
          | O =>
              (OutOfFuel,
               [GetNodeForResource (effective_resource resource (url req));
                LogWarn (still_starting_msg n retryCount (env now));
                SetTimeout (requestBackoff (env now))])
          | S fuel' =>
              ((after_retry
                  (proxyRequest fuel' api client env (S now) req
                     (Some (effective_resource resource (url req)))
                     (retryCount + 1))).1,
               GetNodeForResource (effective_resource resource (url req))
               :: LogWarn (still_starting_msg n retryCount (env now))
               :: SetTimeout (requestBackoff (env now))
               :: (after_retry
                     (proxyRequest fuel' api client env (S now) req
                        (Some (effective_resource resource (url req)))
                        (retryCount + 1))).2)
          end
        else
          (Rejected max_retries_msg,
           [GetNodeForResource (effective_resource resource (url req));
            LogWarn (still_starting_msg n retryCount (env now))])
      else
        ((forward api client (env now) req n (effective_resource resource (url req))).1,
         GetNodeForResource (effective_resource resource (url req))
         :: (forward api client (env now) req n (effective_resource resource (url req))).2)
  end.
Proof.
  destruct fuel; simpl;
    (destruct (getNodeForResource _ _) as [n|]; [|reflexivity]);
    (destruct (is_Initializing (state n));
      [|destruct (forward _ _ _ _ _ _); reflexivity]);
    destruct (_ <=? _)%Z; try reflexivity.
  destruct (after_retry _); reflexivity.
Qed.

Section NeverReady.

Variable api : UrlPlatform.
Variable client : WreckClient.
Variable env : nat -> ProxyService.
Variable req : KibanaRequest.
Variable resource : option string.
Variable m : Z.

(** The node of the resource is [Initializing] whenever it is looked at,
    and [maxRetry] does not change. *)
Hypothesis always_initializing :
  forall t, exists n,
    getNodeForResource (clusterDocClient (env t))
      (effective_resource resource (url req)) = Some n
    /\ state n = Initializing.
Hypothesis maxRetry_fixed : forall t, maxRetry (env t) = m.

(** With [k = m + 1 - retryCount] retries left, the dispatch looks the
    node up [k + 1] times and waits [k] times; only the innermost
    attempt throws, and every attempt above it is left unsettled. *)
Lemma never_ready_run (k : nat) :
  forall (fuel now : nat) (retryCount : Z),
    retryCount <= m + 1 ->
    Z.to_nat (m + 1 - retryCount) = k ->
    (k <= fuel)%nat ->
    let run := proxyRequest fuel api client env now req
                 (Some (effective_resource resource (url req))) retryCount in
    run.1 = (if (retryCount <=? m)%Z then NeverSettles
             else Rejected max_retries_msg)
    /\ readiness_checks run.2 = S k
    /\ backoff_waits run.2 = k
    /\ backend_calls run.2 = 0%nat.
Proof.
  induction k as [|k IH]; intros fuel now retryCount Hrc Hk Hfuel run;
    subst run; destruct (always_initializing now) as (n & Hn & Hst);
    set (r := effective_resource resource (url req)) in *;
    assert (Hr : effective_resource (Some r) (url req) = r)
      by apply effective_resource_idem;
    rewrite proxyRequest_eq, Hr, Hn, Hst, maxRetry_fixed;
    cbn [is_Initializing].
  - assert (Hgt : (retryCount <=? m)%Z = false) by (apply Z.leb_gt; lia).
    rewrite Hgt. repeat split.
  - assert (Hle : (retryCount <=? m)%Z = true) by (apply Z.leb_le; lia).
    rewrite Hle.
    destruct fuel as [|fuel]; [lia|].
    specialize (IH fuel (S now) (retryCount + 1)).
    destruct IH as (Hout & Hchecks & Hwaits & Hcalls); [lia..|].
    pose proof (after_retry_outcome
      (proxyRequest fuel api client env (S now) req (Some r) (retryCount + 1)))
      as Hafter.
    pose proof (after_retry_counts is_lookup
      (proxyRequest fuel api client env (S now) req (Some r) (retryCount + 1))
      (fun _ => eq_refl)) as Hl.
    pose proof (after_retry_counts is_wait
      (proxyRequest fuel api client env (S now) req (Some r) (retryCount + 1))
      (fun _ => eq_refl)) as Hw.
    pose proof (after_retry_counts is_backend_call
      (proxyRequest fuel api client env (S now) req (Some r) (retryCount + 1))
      (fun _ => eq_refl)) as Hb.
    unfold readiness_checks, backoff_waits, backend_calls in *.
    simpl. rewrite Hout in Hafter.
    split; [rewrite Hafter; destruct (retryCount + 1 <=? m)%Z; reflexivity|].
    rewrite !count_cons; simpl. lia.
Qed.

(** From a first call, with [maxRetry >= 0]: [maxRetry + 2] look-ups,
    [maxRetry + 1] waits, no backend call, and a promise that never
    settles. *)
Corollary never_ready_first_call (fuel now : nat) :
  0 <= m ->
  (Z.to_nat (m + 1) <= fuel)%nat ->
  let run := proxyRequest fuel api client env now req resource 0 in
  run.1 = NeverSettles
  /\ Z.of_nat (readiness_checks run.2) = m + 2
  /\ Z.of_nat (backoff_waits run.2) = m + 1
  /\ backend_calls run.2 = 0%nat.
Proof.
  intros Hm Hfuel run.
  assert (Hsame : run = proxyRequest fuel api client env now req
                          (Some (effective_resource resource (url req))) 0).
  { subst run. rewrite !proxyRequest_eq.
    rewrite effective_resource_idem. reflexivity. }
  rewrite Hsame.
  destruct (never_ready_run (Z.to_nat (m + 1)) fuel now 0)
    as (Hout & Hchecks & Hwaits & Hcalls); [lia | f_equal; lia | lia |].
  rewrite Hout, Hchecks, Hwaits, Hcalls.
  replace (0 <=? m)%Z with true by (symmetry; apply Z.leb_le; lia).
  repeat split; lia.
Qed.

End NeverReady.

(** C1. The scenario of the specification, evaluated: [maxRetry = 2],
    [requestBackoff = 50], [r1] on [n1], which stays [Initializing].  The
    dispatch looks the node up four times (with retry counts 0, 1, 2 and 3)
    and waits three times; the "maxRetries exceeded" error is thrown by the
    fourth attempt inside a timer callback, where nothing handles it, and
    the promise of the original call never settles.  No backend call is
    made. *)
Theorem retries_exhausted_scenario :
  let run := proxyRequest 3 Scenario.plain_hosts Scenario.healthy
               Scenario.never_ready 0
               Scenario.req (Some "r1") 0 in
  run = (NeverSettles,
         [GetNodeForResource "r1";
          LogWarn "n1 is still starting retry 0/2 in 50"; SetTimeout 50;
          GetNodeForResource "r1";
          LogWarn "n1 is still starting retry 1/2 in 50"; SetTimeout 50;
          GetNodeForResource "r1";
          LogWarn "n1 is still starting retry 2/2 in 50"; SetTimeout 50;
          GetNodeForResource "r1";
          LogWarn "n1 is still starting retry 3/2 in 50";
          UnhandledRejection
            "maxRetries exceeded and node has not yet initialized"])
  /\ readiness_checks run.2 = 4%nat
  /\ backoff_waits run.2 = 3%nat
  /\ backend_calls run.2 = 0%nat.
Proof. vm_compute. repeat split. Qed.

(** ** The value a retried call resolves with *)

(** An attempt that finds its node [Initializing] never hands a payload to
    its caller: it is fulfilled with [undefined], or left unsettled, or
    (when [maxRetry] is exceeded at once) rejected. *)
Lemma retried_call_has_no_payload
    (fuel : nat) (api : UrlPlatform) (client : WreckClient)
    (env : nat -> ProxyService)
    (now : nat) (req : KibanaRequest) (resource : option string)
    (retryCount : Z) (n : RoutingNode) :
  getNodeForResource (clusterDocClient (env now))
    (effective_resource resource (url req)) = Some n ->
  state n = Initializing ->
  forall v, (proxyRequest fuel api client env now req resource retryCount).1
            = Fulfilled v -> v = VUndefined.
Proof.
  intros Hnode Hst v.
  destruct fuel as [|fuel]; simpl; rewrite Hnode, Hst; simpl;
    destruct (_ <=? _)%Z; simpl; try discriminate.
  destruct (proxyRequest fuel api client env (S now) req _ _) as [[w|msg| |] tr];
    simpl; congruence.
Qed.

(** C2. [n1] is [Initializing] at the first look-up and ready after the
    first wait; the backend answers with the payload [hello].  The retried
    attempt is fulfilled with that payload, but the promise of the original
    call is fulfilled with [undefined]: [resolve()] is called without the
    value of the awaited retry. *)
Theorem retried_response_is_dropped_scenario :
  proxyRequest 1 Scenario.plain_hosts Scenario.healthy
               Scenario.ready_after_first_wait 0
    Scenario.req (Some "r1") 0
  = (Fulfilled VUndefined,
     [GetNodeForResource "r1";
      LogWarn "n1 is still starting retry 0/2 in 50"; SetTimeout 50;
      GetNodeForResource "r1";
      WreckRequest None "post" "https://n1:5601/r1?pretty"
        {| opt_headers := [("content-type", "application/json")];
           payload := VStr "{}" |};
      WreckRead])
  /\ proxyRequest 0 Scenario.plain_hosts Scenario.healthy
               Scenario.ready_after_first_wait 1
       Scenario.req (Some "r1") 1
     = (Fulfilled (VBuffer "hello"),
        [GetNodeForResource "r1";
         WreckRequest None "post" "https://n1:5601/r1?pretty"
           {| opt_headers := [("content-type", "application/json")];
              payload := VStr "{}" |};
         WreckRead]).
Proof. vm_compute. split; reflexivity. Qed.

(** ** Configuration updates and TLS credentials *)


Lemma configureSSL_keeps_fields fs this config ssl this' :
  configureSSL fs this config = (inr ssl, this') ->
  this' = set_httpsAgent this (httpsAgent this')
  /\ agent_cert (httpsAgent this') = fs (Config.cert config)
  /\ agent_key (httpsAgent this') = fs (Config.key config)
  /\ agent_ca (httpsAgent this') = fs (Config.ca config).
Proof.
  unfold configureSSL.
  destruct (fs (Config.cert config)) as [c|]; [|discriminate].
  destruct (fs (Config.key config)) as [k|]; [|discriminate].
  destruct (fs (Config.ca config)) as [a|]; [|discriminate].
  intros [= _ <-]. repeat split.
Qed.

Lemma setup_result fs this0 config ssl this events :
  setup fs this0 config = (inr ssl, this, events) ->
  configSubscription this = Some ConfigSubscription
  /\ port this = Config.port config
  /\ maxRetry this = Config.maxRetry config
  /\ requestBackoff this = Config.requestBackoff config
  /\ wreck this
     = Some {| https := httpsAgent this; http := httpAgent this;
               httpsAllowUnauthorized := allowUnauthAgent this |}
  /\ agent_cert (httpsAgent this) = fs (Config.cert config)
  /\ agent_key (httpsAgent this) = fs (Config.key config)
  /\ agent_ca (httpsAgent this) = fs (Config.ca config).
Proof.
  unfold setup.
  destruct (configureSSL _ _ _) as [[err|ssl'] this'] eqn:Hssl; [discriminate|].
  apply configureSSL_keeps_fields in Hssl as (Hthis' & Hcert & Hkey & Hca).
  intros [= _ <- _]. rewrite Hthis' in *. simpl in *. repeat split; assumption.
Qed.

Lemma last_cons_default {A : Type} (l : list A) :
  forall c d : A, List.last (c :: l) d = List.last l c.
Proof.
  induction l as [|x l IH]; intros c d; [reflexivity|].
  change (List.last (c :: x :: l) d) with (List.last (x :: l) d).
  rewrite (IH x d), (IH x c). reflexivity.
Qed.

(** Configurations that arrive on an open subscription change the three
    fields and nothing else. *)
Lemma emit_all_subscribed (later : list Config.t) :
  forall (this : ProxyService) (first : Config.t),
    configSubscription this = Some ConfigSubscription ->
    port this = Config.port first ->
    maxRetry this = Config.maxRetry first ->
    requestBackoff this = Config.requestBackoff first ->
    let final := emit_all this later in
    let latest := List.last later first in
    port final = Config.port latest
    /\ maxRetry final = Config.maxRetry latest
    /\ requestBackoff final = Config.requestBackoff latest
    /\ configSubscription final = Some ConfigSubscription
    /\ httpsAgent final = httpsAgent this
    /\ wreck final = wreck this.
Proof.
  induction later as [|c later IH]; intros this first Hsub Hp Hm Hb; simpl.
  - repeat split; assumption.
  - unfold emit_all in *. simpl.
    assert (Hstep : on_config this c = setConfig this c)
      by (unfold on_config; rewrite Hsub; reflexivity).
    rewrite Hstep.
    destruct (IH (setConfig this c) c) as (Hp' & Hm' & Hb' & Hs' & Ha' & Hw');
      try reflexivity; [exact Hsub|].
    change (match later with [] => c | _ :: _ => List.last later first end)
      with (List.last (c :: later) first).
    rewrite last_cons_default. repeat split; assumption.
Qed.

(** C3 (as amended). After a successful [setup] with the first
    configuration, every configuration the stream emits sets [port],
    [maxRetry] and [requestBackoff], so these follow the latest
    configuration; the TLS material is read once, by [setup], from the
    paths of the first configuration, and later configurations leave
    [httpsAgent], and the agents that [setup] handed to [Wreck.defaults],
    as [setup] made them. *)
Theorem config_updates_keep_tls_of_setup
    (fs : FileSystem) (this0 : ProxyService) (first : Config.t)
    (later : list Config.t) (ssl : SslConfig) (this : ProxyService)
    (events : list LifecycleEvent) :
  setup fs this0 first = (inr ssl, this, events) ->
  let final := emit_all this later in
  let latest := List.last later first in
  port final = Config.port latest
  /\ maxRetry final = Config.maxRetry latest
  /\ requestBackoff final = Config.requestBackoff latest
  /\ httpsAgent final = httpsAgent this
  /\ wreck final = wreck this
  /\ wreck this
     = Some {| https := httpsAgent this; http := httpAgent this0;
               httpsAllowUnauthorized := allowUnauthAgent this0 |}
  /\ agent_cert (httpsAgent final) = fs (Config.cert first)
  /\ agent_key (httpsAgent final) = fs (Config.key first)
  /\ agent_ca (httpsAgent final) = fs (Config.ca first).
Proof.
  intros Hsetup final latest.
  assert (Hagents : httpAgent this = httpAgent this0
                    /\ allowUnauthAgent this = allowUnauthAgent this0).
  { revert Hsetup. unfold setup.
    destruct (configureSSL _ _ _) as [[err|ssl'] this'] eqn:Hssl;
      [discriminate|].
    apply configureSSL_keeps_fields in Hssl as (Hthis' & _).
    intros [= _ <- _]. rewrite Hthis'. split; reflexivity. }
  destruct Hagents as [Hhttp Hunauth].
  apply setup_result in Hsetup
    as (Hsub & Hp & Hm & Hb & Hwreck & Hcert & Hkey & Hca).
  destruct (emit_all_subscribed later this first Hsub Hp Hm Hb)
    as (Hp' & Hm' & Hb' & _ & Ha' & Hw').
  subst final latest.
  rewrite Ha', Hw', Hwreck, Hhttp, Hunauth. repeat split; assumption.
Qed.

Lemma config_updates_keep_tls_of_setup_witness :
  let this := (setup TlsScenario.fs TlsScenario.fresh TlsScenario.configA).1.2 in
  let final := emit_all this [TlsScenario.configB] in
  port final = 5603
  /\ maxRetry final = 5
  /\ requestBackoff final = 200
  /\ httpsAgent final = httpsAgent this
  /\ wreck final = wreck this
  /\ wreck this
     = Some {| https := httpsAgent this; http := plainAgent;
               httpsAllowUnauthorized := plainAgent |}
  /\ agent_cert (httpsAgent final) = Some "CERT A"
  /\ agent_key (httpsAgent final) = Some "KEY A"
  /\ agent_ca (httpsAgent final) = Some "CA A".
Proof.
  eapply (config_updates_keep_tls_of_setup TlsScenario.fs TlsScenario.fresh
            TlsScenario.configA [TlsScenario.configB]).
  reflexivity.
Defined.

(** C3 (as stated) fails: set up with the certificate, key and CA of
    configuration A, the service receives configuration B, whose files
    exist and differ; the three fields follow B, the TLS material is still
    that of A. *)
Lemma tls_not_reloaded_on_update :
  ~ tls_follows_every_config TlsScenario.fs TlsScenario.fresh
      TlsScenario.configA [TlsScenario.configB].
Proof.
  intros Hclaim.
  specialize (Hclaim _ _ _ eq_refl).
  destruct Hclaim as (_ & _ & _ & Hcert & _).
  vm_compute in Hcert. discriminate.
Qed.

(** ** Shutdown *)


(** C9 (as amended). [stop()] stops the routing store client first and
    leaves the configuration stream second, when there is a subscription to
    leave.  The stopped service has no subscription and ignores later
    configurations; a second [stop()] stops the routing store client once
    more, unsubscribes nothing, and leaves the service as the first call
    left it. *)
Theorem stop_order_and_idempotence (this : ProxyService) :
  (stop this).2
    = ClusterDocStop
      :: (if configSubscription this is Some _ then [Unsubscribe] else [])
  /\ configSubscription (stop this).1 = None
  /\ stop (stop this).1 = ((stop this).1, [ClusterDocStop])
  /\ (forall config, on_config (stop this).1 config = (stop this).1).
Proof.
  unfold stop, on_config.
  destruct (configSubscription this) as [sub|] eqn:Hsub; simpl;
    rewrite ?Hsub; repeat split.
Qed.

(** C9 (as stated) fails on a service that is subscribed: the routing store
    client is stopped before the subscription is closed. *)
Lemma stop_does_not_unsubscribe_first :
  ~ stop_unsubscribes_first (Scenario.service Scenario.ready)
  /\ (stop (Scenario.service Scenario.ready)).2 = [ClusterDocStop; Unsubscribe].
Proof. split; [intros H; vm_compute in H; discriminate | reflexivity]. Qed.

(** ** Configuration schema *)

Lemma validate_tls_label (v : JsVal) :
  validate (SOneOf [SLiteral "TLSv1"; SLiteral "TLSv1.1"; SLiteral "TLSv1.2"]) v
  = if is_tls_label v then inr v else inl NoAlternativeMatches.
Proof.
  destruct v as [|z|s|b|items]; try reflexivity.
  simpl. unfold tls_labels.
  destruct (bool_decide_reflect (s ∈ ["TLSv1"; "TLSv1.1"; "TLSv1.2"]))
    as [Hin|Hout].
  - repeat case_decide; try reflexivity. exfalso.
    repeat (apply elem_of_cons in Hin as [->|Hin]; [congruence|]).
    by apply elem_of_nil in Hin.
  - repeat case_decide; try reflexivity; exfalso; apply Hout; subst;
      rewrite !elem_of_cons; auto.
Qed.

Lemma validate_each_tls_labels (items : list JsVal) :
  forall i,
    match validate_each
            (validate (SOneOf [SLiteral "TLSv1"; SLiteral "TLSv1.1";
                               SLiteral "TLSv1.2"])) i items with
    | inr r => r = items /\ forallb is_tls_label items = true
    | inl _ => forallb is_tls_label items = false
    end.
Proof.
  induction items as [|x items IH]; intros i.
  - split; reflexivity.
  - cbn [validate_each forallb]. rewrite validate_tls_label.
    destruct (is_tls_label x); [|reflexivity].
    specialize (IH (S i)).
    destruct (validate_each _ (S i) items) as [e|r]; simpl.
    + exact IH.
    + destruct IH as [-> ->]. split; reflexivity.
Qed.

(** C7. The schema of [supportedProtocols], under the validation of the
    configuration library: an array is accepted exactly when it is not
    empty and each of its items is one of the labels [TLSv1], [TLSv1.1],
    [TLSv1.2], and it is then returned unchanged; any other array is an
    error, not a shortened list; an absent value becomes the two-item
    default [TLSv1.1], [TLSv1.2], which itself passes validation. *)
Theorem supportedProtocols_validation :
  (forall items : list JsVal,
     match validate supportedProtocols_schema (VArr items) with
     | inr r =>
         r = VArr items
         /\ (0 < length items)%nat
         /\ forallb is_tls_label items = true
     | inl _ =>
         items = [] \/ forallb is_tls_label items = false
     end)
  /\ validate supportedProtocols_schema (VArr []) = inl (ArrayTooShort 1)
  /\ validate supportedProtocols_schema (VArr [VStr "TLSv1.2"; VStr "SSLv3"])
     = inl (InvalidItem 1 NoAlternativeMatches)
  /\ validate supportedProtocols_schema VUndefined
     = inr (VArr [VStr "TLSv1.1"; VStr "TLSv1.2"])
  /\ validate supportedProtocols_schema (VArr [VStr "TLSv1.1"; VStr "TLSv1.2"])
     = inr (VArr [VStr "TLSv1.1"; VStr "TLSv1.2"]).
Proof.
  split; [|repeat split].
  intros items. unfold supportedProtocols_schema.
  cbn [validate default].
  destruct items as [|x items]; [left; reflexivity|].
  change (length (x :: items) <? 1)%nat with false. cbv iota.
  pose proof (validate_each_tls_labels (x :: items) 0%nat) as H.
  destruct (validate_each _ 0%nat (x :: items)) as [e|r].
  - right. exact H.
  - destruct H as [-> H]. repeat split; [simpl; lia | exact H].
Qed.


(** The property the source reads is not one the platform defines: whenever
    the constants object has no property [defulatCoreCipherList], the
    evaluation of [ProxyConfig] throws. *)
Lemma ProxyConfig_throws (cryptoConstants : gmap string JsVal) :
  cryptoConstants !! "defulatCoreCipherList" = None ->
  ProxyConfig cryptoConstants
  = inl "TypeError: Cannot read property 'split' of undefined".
Proof.
  intros Hnone.
  unfold ProxyConfig, cipherSuites_schema, cipherSuites_default, get_prop.
  rewrite Hnone. reflexivity.
Qed.

(** Had the constants object a string under that name, the default of
    [cipherSuites] would be its pieces between the colons, in order. *)
Lemma cipherSuites_default_when_defined (cryptoConstants : gmap string JsVal)
    (ciphers : string) :
  cryptoConstants !! "defulatCoreCipherList" = Some (VStr ciphers) ->
  exists s,
    cipherSuites_schema cryptoConstants = inr s
    /\ validate s VUndefined
       = inr (VArr (VStr <$> split_on ":"%char EmptyString ciphers)).
Proof.
  intros Hsome.
  unfold cipherSuites_schema, cipherSuites_default, get_prop.
  rewrite Hsome. simpl. eexists. split; reflexivity.
Qed.

(** C8. On the platform's constants object the default of [cipherSuites]
    is never computed: the source reads the property
    [defulatCoreCipherList], which does not exist, and [split] is called on
    [undefined]; the evaluation of [ProxyConfig] ends in a [TypeError] and
    there is no schema to validate an omitted [cipherSuites] with.  The
    platform's cipher list is under [defaultCoreCipherList]. *)
Theorem cipherSuites_default_throws_on_platform :
  cipherSuites_default node_crypto_constants
    = inl "TypeError: Cannot read property 'split' of undefined"
  /\ ProxyConfig node_crypto_constants
    = inl "TypeError: Cannot read property 'split' of undefined"
  /\ js_split_colon (get_prop node_crypto_constants "defaultCoreCipherList")
    = inr ["TLS_AES_256_GCM_SHA384"; "TLS_AES_128_GCM_SHA256";
           "ECDHE-RSA-AES128-GCM-SHA256"; "!aNULL"].
Proof. vm_compute. repeat split. Qed.

(** * Further properties *)

(** ** [mergeTables.fn] *)

Lemma forEach_assign_snoc {T : Type} (layerIds : list string)
    (ts : list T) (t : T) :
  forall (index : nat) (o : JsObject T),
    forEach_assign layerIds index (ts ++ [t]) o
    = js_set (forEach_assign layerIds index ts o)
        (property_key layerIds (index + length ts)) t.
Proof.
  induction ts as [|x ts IH]; intros index o; simpl.
  - by rewrite Nat.add_0_r.
  - rewrite IH. do 2 f_equal. lia.
Qed.

Lemma property_key_Some (layerIds : list string) (j : nat) (id : string) :
  layerIds !! j = Some id -> property_key layerIds j = id.
Proof. unfold property_key. by intros ->. Qed.

Lemma property_key_past_end (layerIds : list string) (j : nat) :
  (length layerIds <= j)%nat -> property_key layerIds j = "undefined".
Proof.
  intros Hj. unfold property_key. by rewrite (lookup_ge_None_2 _ _ Hj).
Qed.

(** The own property [k] holds the table of the last assignment to [k]. *)
Lemma own_lookup_last_assignment {T : Type} (layerIds : list string)
    (k : string) (ts : list T) :
  k <> "__proto__" ->
  forall t : T,
    own (forEach_assign layerIds 0 ts empty_object) !! k = Some t
    <-> exists j : nat,
          property_key layerIds j = k
          /\ ts !! j = Some t
          /\ (forall j' : nat, (j < j')%nat -> (j' < length ts)%nat ->
                property_key layerIds j' <> k).
Proof.
  intros Hk.
  induction ts as [|x ts IH] using rev_ind; intros t.
  - simpl. rewrite lookup_empty. split; [discriminate|].
    intros (j & _ & Hj & _). by rewrite lookup_nil in Hj.
  - rewrite forEach_assign_snoc, Nat.add_0_l. unfold js_set.
    set (n := length ts).
    assert (Hold : forall j : nat, (j < n)%nat ->
              (ts ++ [x])%list !! j = ts !! j)
      by (intros j Hj; by rewrite lookup_app_l).
    assert (Hnew : (ts ++ [x])%list !! n = Some x)
      by (subst n; by rewrite list_lookup_middle).
    assert (Hlen : length (ts ++ [x])%list = S n)
      by (rewrite length_app; simpl; lia).
    destruct (decide (property_key layerIds n = k)) as [Heq|Hne].
    + (* the new assignment is to [k] *)
      rewrite decide_False by congruence. simpl.
      rewrite Heq, lookup_insert_eq. split.
      * intros [= <-]. exists n. repeat split; [done|done|]. intros; lia.
      * intros (j & Hkey & Hj & Hlast).
        destruct (decide (j = n)) as [->|Hjn]; [congruence|].
        assert (Hlt : (j < n)%nat).
        { apply lookup_lt_Some in Hj. rewrite Hlen in Hj. lia. }
        exfalso. apply (Hlast n); [lia | lia | done].
    + (* the new assignment is to another key, or to the prototype *)
      assert (Hsame :
        own (if decide (property_key layerIds n = "__proto__")
             then {| own := own (forEach_assign layerIds 0 ts empty_object);
                     proto := Some x |}
             else {| own := <[property_key layerIds n := x]>
                              (own (forEach_assign layerIds 0 ts empty_object));
                     proto := proto (forEach_assign layerIds 0 ts empty_object) |})
          !! k
        = own (forEach_assign layerIds 0 ts empty_object) !! k).
      { case_decide; simpl; [done|]. by rewrite lookup_insert_ne. }
      rewrite Hsame, IH. split.
      * intros (j & Hkey & Hj & Hlast).
        assert (Hlt : (j < n)%nat) by (by apply lookup_lt_Some in Hj).
        exists j. repeat split; [done | by rewrite Hold |].
        intros j' Hjj' Hj'. rewrite Hlen in Hj'.
        destruct (decide (j' = n)) as [->|]; [done|]. apply Hlast; lia.
      * intros (j & Hkey & Hj & Hlast).
        destruct (decide (j = n)) as [->|Hjn]; [congruence|].
        assert (Hlt : (j < n)%nat).
        { apply lookup_lt_Some in Hj. rewrite Hlen in Hj. lia. }
        exists j. repeat split; [done | by rewrite <- Hold |].
        intros j' Hjj' Hj'. apply Hlast; [done | rewrite Hlen; lia].
Qed.

(** The prototype is the table of the last assignment to [__proto__]. *)
Lemma proto_last_assignment {T : Type} (layerIds : list string)
    (ts : list T) :
  forall t : T,
    proto (forEach_assign layerIds 0 ts empty_object) = Some t
    <-> exists j : nat,
          property_key layerIds j = "__proto__"
          /\ ts !! j = Some t
          /\ (forall j' : nat, (j < j')%nat -> (j' < length ts)%nat ->
                property_key layerIds j' <> "__proto__").
Proof.
  induction ts as [|x ts IH] using rev_ind; intros t.
  - simpl. split; [discriminate|].
    intros (j & _ & Hj & _). by rewrite lookup_nil in Hj.
  - rewrite forEach_assign_snoc, Nat.add_0_l. unfold js_set.
    set (n := length ts).
    assert (Hold : forall j : nat, (j < n)%nat ->
              (ts ++ [x])%list !! j = ts !! j)
      by (intros j Hj; by rewrite lookup_app_l).
    assert (Hnew : (ts ++ [x])%list !! n = Some x)
      by (subst n; by rewrite list_lookup_middle).
    assert (Hlen : length (ts ++ [x])%list = S n)
      by (rewrite length_app; simpl; lia).
    case_decide as Hkey; simpl.
    + split.
      * intros [= <-]. exists n. repeat split; [done|done|]. intros; lia.
      * intros (j & Hj1 & Hj & Hlast).
        destruct (decide (j = n)) as [->|Hjn]; [congruence|].
        assert (Hlt : (j < n)%nat).
        { apply lookup_lt_Some in Hj. rewrite Hlen in Hj. lia. }
        exfalso. apply (Hlast n); [lia | lia | done].
    + rewrite IH. split.
      * intros (j & Hj1 & Hj & Hlast).
        assert (Hlt : (j < n)%nat) by (by apply lookup_lt_Some in Hj).
        exists j. repeat split; [done | by rewrite Hold |].
        intros j' Hjj' Hj'. rewrite Hlen in Hj'.
        destruct (decide (j' = n)) as [->|]; [done|]. apply Hlast; lia.
      * intros (j & Hj1 & Hj & Hlast).
        destruct (decide (j = n)) as [->|Hjn]; [congruence|].
        assert (Hlt : (j < n)%nat).
        { apply lookup_lt_Some in Hj. rewrite Hlen in Hj. lia. }
        exists j. repeat split; [done | by rewrite <- Hold |].
        intros j' Hjj' Hj'. apply Hlast; [done | rewrite Hlen; lia].
Qed.

Lemma own_proto_key_absent {T : Type} (layerIds : list string) (ts : list T) :
  own (forEach_assign layerIds 0 ts empty_object) !! "__proto__" = None.
Proof.
  induction ts as [|x ts IH] using rev_ind; [apply lookup_empty|].
  rewrite forEach_assign_snoc. unfold js_set.
  case_decide; simpl; [done|]. by rewrite lookup_insert_ne.
Qed.

Lemma own_size_le {T : Type} (layerIds : list string) (ts : list T) :
  (size (own (forEach_assign layerIds 0 ts empty_object)) <= length ts)%nat.
Proof.
  induction ts as [|x ts IH] using rev_ind;
    [simpl; by rewrite map_size_empty|].
  rewrite forEach_assign_snoc, length_app. unfold js_set. simpl.
  case_decide; simpl; [lia|].
  rewrite map_size_insert.
  destruct (_ !! _); simpl; lia.
Qed.

Lemma forEach_assign_take {T : Type} (layerIds : list string) (ts : list T) :
  forall (index : nat) (o : JsObject T),
    forEach_assign (take (index + length ts) layerIds) index ts o
    = forEach_assign layerIds index ts o.
Proof.
  induction ts as [|x ts IH]; intros index o; simpl; [done|].
  replace (index + S (length ts))%nat with (S index + length ts)%nat by lia.
  rewrite IH. do 2 f_equal.
  unfold property_key. rewrite lookup_take_lt by lia. done.
Qed.

(** X1. Under every key other than [__proto__], the merged object holds the
    table of the last position whose layer id is that key (a position past
    the end of [layerIds] counts as the id [undefined]); it holds nothing
    under a key that no position has. *)
Theorem mergeTables_last_table_wins {T : Type} (layerIds : list string)
    (ts : list T) (k : string) (t : T) :
  k <> "__proto__" ->
  own (tables (mergeTables.fn layerIds ts)) !! k = Some t
  <-> exists j : nat,
        property_key layerIds j = k
        /\ ts !! j = Some t
        /\ (forall j' : nat, (j < j')%nat -> (j' < length ts)%nat ->
              property_key layerIds j' <> k).
Proof. intros Hk. apply own_lookup_last_assignment, Hk. Qed.

Lemma mergeTables_last_table_wins_witness :
  own (tables (mergeTables.fn ["a"; "b"; "a"] ["t0"; "t1"; "t2"])) !! "a"
    = Some "t2"
  <-> exists j : nat,
        property_key ["a"; "b"; "a"] j = "a"
        /\ ["t0"; "t1"; "t2"] !! j = Some "t2"
        /\ (forall j' : nat, (j < j')%nat ->
              (j' < length ["t0"; "t1"; "t2"])%nat ->
              property_key ["a"; "b"; "a"] j' <> "a").
Proof.
  apply (mergeTables_last_table_wins ["a"; "b"; "a"] ["t0"; "t1"; "t2"]).
  discriminate.
Defined.

(** X2. When there is a layer id for every table, these ids are pairwise
    different and none is [__proto__], each table is found under its own
    layer id, the merged object has as many own properties as there are
    tables, and its prototype is untouched. *)
Theorem mergeTables_distinct_ids {T : Type} (layerIds : list string)
    (ts : list T) :
  (length ts <= length layerIds)%nat ->
  NoDup (take (length ts) layerIds) ->
  "__proto__" ∉ take (length ts) layerIds ->
  (forall (j : nat) (id : string) (t : T),
     layerIds !! j = Some id -> ts !! j = Some t ->
     own (tables (mergeTables.fn layerIds ts)) !! id = Some t)
  /\ size (own (tables (mergeTables.fn layerIds ts))) = length ts
  /\ proto (tables (mergeTables.fn layerIds ts)) = None.
Proof.
  intros Hlen Hnodup Hproto. simpl.
  assert (Hkey : forall j, (j < length ts)%nat ->
            exists id, layerIds !! j = Some id
                       /\ take (length ts) layerIds !! j = Some id).
  { intros j Hj. destruct (lookup_lt_is_Some_2 layerIds j) as [id Hid]; [lia|].
    exists id. split; [done|]. by rewrite lookup_take_lt. }
  split; [|split].
  - intros j id t Hid Ht.
    assert (Hj : (j < length ts)%nat) by (by apply lookup_lt_Some in Ht).
    assert (Hin : take (length ts) layerIds !! j = Some id)
      by (by rewrite lookup_take_lt).
    apply own_lookup_last_assignment.
    + intros ->. apply Hproto. by eapply list_elem_of_lookup_2.
    + exists j. repeat split; [by apply property_key_Some | done |].
      intros j' Hjj' Hj' Hsame.
      destruct (Hkey j' Hj') as (id' & Hid' & Hin').
      rewrite (property_key_Some _ _ _ Hid') in Hsame. subst id'.
      pose proof (NoDup_lookup _ _ _ _ Hnodup Hin Hin'). lia.
  - clear Hkey. revert Hlen Hnodup Hproto.
    induction ts as [|x ts IH] using rev_ind; intros Hlen Hnodup Hproto;
      [simpl; by rewrite map_size_empty|].
    rewrite length_app in *. simpl in *.
    destruct (lookup_lt_is_Some_2 layerIds (length ts)) as [id Hid]; [lia|].
    replace (length ts + 1)%nat with (S (length ts)) in * by lia.
    rewrite (take_S_r _ _ _ Hid) in Hnodup, Hproto.
    apply NoDup_app in Hnodup as (Hnodup & Hfresh & _).
    rewrite forEach_assign_snoc, Nat.add_0_l, (property_key_Some _ _ _ Hid).
    unfold js_set. rewrite decide_False; [simpl|].
    2:{ intros ->. apply Hproto. rewrite elem_of_app, list_elem_of_singleton.
        by right. }
    rewrite map_size_insert_None.
    + rewrite IH; [done | lia | done |].
      intros Hin. apply Hproto. rewrite elem_of_app. by left.
    + destruct (own _ !! id) as [t|] eqn:Hown; [exfalso|done].
      apply own_lookup_last_assignment in Hown as (j & Hj1 & Hj2 & _).
      2:{ intros ->. apply Hproto. rewrite elem_of_app, list_elem_of_singleton.
          by right. }
      assert (Hj : (j < length ts)%nat) by (by apply lookup_lt_Some in Hj2).
      destruct (lookup_lt_is_Some_2 layerIds j) as [id' Hid']; [lia|].
      rewrite (property_key_Some _ _ _ Hid') in Hj1. subst id'.
      apply (Hfresh id); [|by apply list_elem_of_singleton].
      apply list_elem_of_lookup_2 with j. by rewrite lookup_take_lt.
  - destruct (proto _) as [t|] eqn:Hp; [exfalso|done].
    apply proto_last_assignment in Hp as (j & Hj1 & Hj2 & _).
    assert (Hj : (j < length ts)%nat) by (by apply lookup_lt_Some in Hj2).
    destruct (Hkey j Hj) as (id & Hid & Hin).
    rewrite (property_key_Some _ _ _ Hid) in Hj1. subst id.
    apply Hproto. by eapply list_elem_of_lookup_2.
Qed.

Lemma mergeTables_distinct_ids_witness :
  (forall (j : nat) (id : string) (t : string),
     ["first"; "second"; "spare"] !! j = Some id ->
     ["t0"; "t1"] !! j = Some t ->
     own (tables (mergeTables.fn ["first"; "second"; "spare"] ["t0"; "t1"]))
       !! id = Some t)
  /\ size (own (tables (mergeTables.fn ["first"; "second"; "spare"]
                          ["t0"; "t1"]))) = length ["t0"; "t1"]
  /\ proto (tables (mergeTables.fn ["first"; "second"; "spare"]
                      ["t0"; "t1"])) = None.
Proof.
  apply (mergeTables_distinct_ids ["first"; "second"; "spare"] ["t0"; "t1"]).
  - simpl. lia.
  - simpl. apply (bool_decide_unpack _). vm_compute. exact I.
  - simpl. apply (bool_decide_unpack _). vm_compute. exact I.
Defined.

(** X3. When there are more tables than layer ids, the tables without an id
    are all assigned to the key [undefined], one over the other: what the
    merged object holds under [undefined] is the last table. *)
Theorem mergeTables_surplus_tables {T : Type} (layerIds : list string)
    (ts : list T) :
  (length layerIds < length ts)%nat ->
  own (tables (mergeTables.fn layerIds ts)) !! "undefined" = last ts.
Proof.
  intros Hlen. simpl.
  destruct (last ts) as [t|] eqn:Hlast.
  2:{ apply last_None in Hlast. subst ts. simpl in Hlen. lia. }
  apply own_lookup_last_assignment; [discriminate|].
  exists (pred (length ts)). repeat split.
  - apply property_key_past_end. lia.
  - by rewrite <- last_lookup.
  - intros; lia.
Qed.

Lemma mergeTables_surplus_tables_witness :
  own (tables (mergeTables.fn ["a"] ["t0"; "t1"; "t2"])) !! "undefined"
  = last ["t0"; "t1"; "t2"].
Proof.
  apply (mergeTables_surplus_tables ["a"] ["t0"; "t1"; "t2"]).
  simpl. lia.
Defined.

(** X4. A table whose layer id is [__proto__] is never stored as a property
    of the merged object: it replaces the object's prototype, and the
    prototype at the end is the table of the last position with that id. *)
Theorem mergeTables_proto_layer_id {T : Type} (layerIds : list string)
    (ts : list T) :
  own (tables (mergeTables.fn layerIds ts)) !! "__proto__" = None
  /\ forall t : T,
       proto (tables (mergeTables.fn layerIds ts)) = Some t
       <-> exists j : nat,
             layerIds !! j = Some "__proto__"
             /\ ts !! j = Some t
             /\ (forall j' : nat, (j < j')%nat -> (j' < length ts)%nat ->
                   layerIds !! j' <> Some "__proto__").
Proof.
  assert (Hkey : forall j, property_key layerIds j = "__proto__"
                           <-> layerIds !! j = Some "__proto__").
  { intros j. unfold property_key.
    destruct (layerIds !! j); simpl; split; congruence. }
  split; [apply own_proto_key_absent|].
  intros t. simpl. rewrite proto_last_assignment.
  split; intros (j & Hj1 & Hj2 & Hlast); exists j;
    (repeat split; [by apply Hkey | done |]);
    intros j' Hjj' Hj' Hsame; apply (Hlast j' Hjj' Hj'); by apply Hkey.
Qed.

(** X5. The merged object has at most one own property per table, each
    under a layer id or under [undefined], and layer ids beyond the number
    of tables have no effect on it. *)
Theorem mergeTables_keys_bounded {T : Type} (layerIds : list string)
    (ts : list T) :
  (size (own (tables (mergeTables.fn layerIds ts))) <= length ts)%nat
  /\ (forall k : string,
        is_Some (own (tables (mergeTables.fn layerIds ts)) !! k) ->
        k ∈ layerIds \/ k = "undefined")
  /\ mergeTables.fn (take (length ts) layerIds) ts = mergeTables.fn layerIds ts.
Proof.
  split; [apply own_size_le|]. split.
  - intros k [t Hk]. simpl in Hk.
    destruct (decide (k = "__proto__")) as [->|Hne].
    { by rewrite own_proto_key_absent in Hk. }
    apply own_lookup_last_assignment in Hk as (j & Hj & _); [|done].
    unfold property_key in Hj.
    destruct (layerIds !! j) as [id|] eqn:Hid; simpl in Hj; subst k.
    + left. by eapply list_elem_of_lookup_2.
    + by right.
  - unfold mergeTables.fn. f_equal.
    apply (forEach_assign_take layerIds ts 0).
Qed.

(** ** [proxyRequest]: every dispatch *)

Lemma forward_fulfilled_or_rejected (api : UrlPlatform) (client : WreckClient)
    (this : ProxyService)
    (req : KibanaRequest) (n : RoutingNode) (resource : string) :
  (exists data, (forward api client this req n resource).1 = Fulfilled (VBuffer data))
  \/ (exists msg, (forward api client this req n resource).1 = Rejected msg).
Proof.
  unfold forward.
  destruct (request client _ _ _ _) as [cause|res]; [|destruct (read client res)];
    simpl; eauto.
Qed.

(** X6. However the routing table and the configuration change while a
    dispatch waits, the dispatch calls the backend at most once, and a
    dispatch whose promise is fulfilled has called it exactly once. *)
Theorem proxyRequest_backend_called_once
    (fuel : nat) (api : UrlPlatform) (client : WreckClient)
    (env : nat -> ProxyService)
    (now : nat) (req : KibanaRequest) (resource : option string)
    (retryCount : Z) :
  let run := proxyRequest fuel api client env now req resource retryCount in
  (backend_calls run.2 <= 1)%nat
  /\ forall v, run.1 = Fulfilled v -> backend_calls run.2 = 1%nat.
Proof.
  split; [apply backend_calls_le_1|].
  revert now resource retryCount.
  induction fuel as [|fuel IH]; intros now resource retryCount v;
    rewrite proxyRequest_eq;
    (destruct (getNodeForResource _ _) as [n|]; [|discriminate]);
    (destruct (is_Initializing (state n));
      [|intros _; simpl;
        pose proof (forward_one_backend_call api client req (env now) n
                      (effective_resource resource (url req))) as Hone;
        revert Hone; count_events; lia]);
    (destruct (_ <=? _)%Z; [|discriminate]); [discriminate|].
  simpl. intros Hout.
  pose proof (after_retry_counts is_backend_call
    (proxyRequest fuel api client env (S now) req
       (Some (effective_resource resource (url req))) (retryCount + 1))
    (fun _ => eq_refl)) as Hcount.
  rewrite after_retry_outcome in Hout.
  destruct (proxyRequest fuel api client env (S now) req _ _).1 as [w|msg| |] eqn:Hin;
    try discriminate.
  specialize (IH (S now) _ _ w Hin).
  unfold backend_calls in *. rewrite !count_cons, Hcount, IH. reflexivity.
Qed.

(** X7. While [maxRetry] stays at or below [m], a dispatch that starts with
    retry count [retryCount] sets at most [m + 1 - retryCount] timers, and it
    looks the node up once before the first timer and once after each: the
    recursion ends by itself. *)
Theorem proxyRequest_attempts_bounded
    (api : UrlPlatform) (client : WreckClient) (env : nat -> ProxyService)
    (req : KibanaRequest)
    (m : Z) (fuel now : nat) (resource : option string) (retryCount : Z) :
  (forall t, maxRetry (env t) <= m) ->
  (Z.to_nat (m + 1 - retryCount) <= fuel)%nat ->
  let run := proxyRequest fuel api client env now req resource retryCount in
  run.1 <> OutOfFuel
  /\ (backoff_waits run.2 <= Z.to_nat (m + 1 - retryCount))%nat
  /\ readiness_checks run.2 = S (backoff_waits run.2).
Proof.
  intros Hmax.
  revert now resource retryCount.
  induction fuel as [|fuel IH]; intros now resource retryCount Hfuel run;
    subst run; rewrite proxyRequest_eq;
    (destruct (getNodeForResource _ _) as [n|];
      [|repeat split; [discriminate | count_events; lia]]);
    (destruct (is_Initializing (state n));
      [|pose proof (forward_settles api client (env now) req n
                      (effective_resource resource (url req))) as Hs;
        pose proof (forward_no_wait api client req (env now) n
                      (effective_resource resource (url req))) as Hw;
        assert (Hl : readiness_checks
                  (forward api client (env now) req n
                     (effective_resource resource (url req))).2 = 0%nat)
          by (unfold forward;
              destruct (request client _ _ _ _) as [?|res];
              [|destruct (read client res)]; reflexivity);
        simpl; split; [exact Hs|];
        unfold readiness_checks, backoff_waits in *;
        rewrite !count_cons, Hw, Hl; simpl; lia]);
    (destruct (Z.leb_spec retryCount (maxRetry (env now))) as [Hle|Hgt];
      [|repeat split; [discriminate | count_events; lia]]);
    specialize (Hmax now) as Hnow; [lia|].
  assert (Hfuel' : (Z.to_nat (m + 1 - (retryCount + 1)) <= fuel)%nat) by lia.
  destruct (IH (S now) (Some (effective_resource resource (url req)))
              (retryCount + 1) Hfuel') as (Hout & Hwaits & Hchecks).
  pose proof (after_retry_outcome
    (proxyRequest fuel api client env (S now) req
       (Some (effective_resource resource (url req))) (retryCount + 1)))
    as Hafter.
  pose proof (after_retry_counts is_lookup
    (proxyRequest fuel api client env (S now) req
       (Some (effective_resource resource (url req))) (retryCount + 1))
    (fun _ => eq_refl)) as Hl.
  pose proof (after_retry_counts is_wait
    (proxyRequest fuel api client env (S now) req
       (Some (effective_resource resource (url req))) (retryCount + 1))
    (fun _ => eq_refl)) as Hw.
  unfold readiness_checks, backoff_waits in *. simpl.
  split; [|rewrite !count_cons, Hl, Hw; simpl; lia].
  rewrite Hafter.
  destruct (proxyRequest fuel api client env (S now) req _ _).1; congruence.
Qed.

Lemma proxyRequest_attempts_bounded_witness :
  let run := proxyRequest 3 Scenario.plain_hosts Scenario.healthy
               Scenario.ready_after_first_wait 0
               Scenario.req (Some "r1") 0 in
  run.1 <> OutOfFuel
  /\ (backoff_waits run.2 <= Z.to_nat (2 + 1 - 0))%nat
  /\ readiness_checks run.2 = S (backoff_waits run.2).
Proof.
  apply (proxyRequest_attempts_bounded Scenario.plain_hosts Scenario.healthy
           Scenario.ready_after_first_wait Scenario.req 2 3 0 (Some "r1") 0).
  - intros [|t]; simpl; lia.
  - simpl. lia.
Defined.

(** Every look-up of a dispatch is for the effective resource of the first
    attempt. *)
Lemma proxyRequest_lookups_same_resource
    (api : UrlPlatform) (client : WreckClient) (env : nat -> ProxyService)
    (req : KibanaRequest)
    (fuel : nat) :
  forall (now : nat) (resource : option string) (retryCount : Z) (k : string),
    GetNodeForResource k
      ∈ (proxyRequest fuel api client env now req resource retryCount).2 ->
    k = effective_resource resource (url req).
Proof.
  induction fuel as [|fuel IH]; intros now resource retryCount k;
    rewrite proxyRequest_eq;
    (destruct (getNodeForResource _ _) as [n|];
      [|simpl; rewrite !elem_of_cons, elem_of_nil;
        intros [[= ->]|[?|[]]]; [done|discriminate]]);
    (destruct (is_Initializing (state n));
      [|simpl; rewrite elem_of_cons; intros [[= ->]|Hin]; [done|];
        exfalso; revert Hin; unfold forward;
        destruct (request client _ _ _ _) as [?|res];
        [|destruct (read client res)]; simpl;
        rewrite !elem_of_cons, elem_of_nil; intros [?|[?|[]]]; discriminate]);
    (destruct (_ <=? _)%Z;
      [|simpl; rewrite !elem_of_cons, elem_of_nil;
        intros [[= ->]|[?|[]]]; [done|discriminate]]).
  - simpl. rewrite !elem_of_cons, elem_of_nil.
    intros [[= ->]|[?|[?|[]]]]; [done|discriminate..].
  - simpl. rewrite !elem_of_cons.
    intros [[= ->]|[?|[?|Hin]]]; [done|discriminate..|].
    assert (Hin' : GetNodeForResource k
              ∈ (proxyRequest fuel api client env (S now) req
                   (Some (effective_resource resource (url req)))
                   (retryCount + 1)).2).
    { destruct (proxyRequest fuel api client env (S now) req _ _)
        as [[w|msg| |] tr]; simpl in *; try done.
      apply elem_of_app in Hin as [Hin|Hin]; [done|].
      apply list_elem_of_singleton in Hin. discriminate. }
    apply IH in Hin'. by rewrite effective_resource_idem in Hin'.
Qed.

(** ** The empty resource name *)

(** C10. A call with the empty string as its resource argument is the call
    without a resource argument, event for event, and the resource it
    dispatches on is the path of the request's URL: the first event is the
    look-up of that path, every look-up of the dispatch is for that path,
    and what follows is decided by the node found under that path: without
    a node the call rejects with the "No node was found" error that names
    the path, with a node that is initializing it warns about that node,
    and with a ready node it forwards to that node. *)
Theorem proxyRequest_empty_resource
    (fuel : nat) (api : UrlPlatform) (client : WreckClient)
    (env : nat -> ProxyService) (now : nat) (req : KibanaRequest)
    (retryCount : Z) :
  let path := pathname (url req) in
  let run := proxyRequest fuel api client env now req (Some "") retryCount in
  run = proxyRequest fuel api client env now req None retryCount
  /\ head run.2 = Some (GetNodeForResource path)
  /\ (forall k : string, GetNodeForResource k ∈ run.2 -> k = path)
  /\ match getNodeForResource (clusterDocClient (env now)) path with
     | None =>
         run = (Rejected ("No node was found for resource " ++ path),
                [GetNodeForResource path;
                 LogDebug ("No node was found for resource " ++ path)])
     | Some n =>
         if is_Initializing (state n)
         then exists rest : list Event,
                run.2 = GetNodeForResource path
                        :: LogWarn (still_starting_msg n retryCount (env now))
                        :: rest
         else run = ((forward api client (env now) req n path).1,
                     GetNodeForResource path
                     :: (forward api client (env now) req n path).2)
     end.
Proof.
  intros path run.
  assert (Heff : effective_resource (Some "") (url req) = path)
    by reflexivity.
  split; [subst run; destruct fuel; reflexivity|].
  split; [|split].
  - subst run. rewrite proxyRequest_eq, Heff.
    destruct (getNodeForResource _ _) as [n|]; [|done].
    destruct (is_Initializing (state n)); [|done].
    destruct (_ <=? _)%Z; [|done]. by destruct fuel.
  - intros k Hin. apply proxyRequest_lookups_same_resource in Hin.
    by rewrite Heff in Hin.
  - pose proof (proxyRequest_eq fuel api client env now req (Some "")
                  retryCount) as Hrun.
    rewrite Heff in Hrun. fold run in Hrun.
    destruct (getNodeForResource (clusterDocClient (env now)) path) as [n|];
      [|exact Hrun].
    destruct (is_Initializing (state n)); [|exact Hrun].
    rewrite Hrun.
    destruct (_ <=? _)%Z; [|eexists; reflexivity].
    destruct fuel; eexists; reflexivity.
Qed.

(** X8. The callable made by [proxyResource] for a non-empty resource name
    dispatches every request on that name: whatever the path of the
    request's URL, and through every retry, the routing store is asked for
    that resource and for no other. *)
Theorem proxyResource_fixes_the_resource
    (fuel : nat) (api : UrlPlatform) (client : WreckClient)
    (env : nat -> ProxyService)
    (now : nat) (resource : string) (req : KibanaRequest) :
  resource <> "" ->
  let run := proxyResource fuel api client env now resource req in
  head run.2 = Some (GetNodeForResource resource)
  /\ forall k : string, GetNodeForResource k ∈ run.2 -> k = resource.
Proof.
  intros Hne run.
  assert (Heff : effective_resource (Some resource) (url req) = resource)
    by (unfold effective_resource; by rewrite decide_False).
  split.
  - subst run. unfold proxyResource. rewrite proxyRequest_eq, Heff.
    destruct (getNodeForResource _ _) as [n|]; [|done].
    destruct (is_Initializing (state n)); [|done].
    destruct (_ <=? _)%Z; [|done]. by destruct fuel.
  - intros k Hin. apply proxyRequest_lookups_same_resource in Hin.
    by rewrite Heff in Hin.
Qed.

Lemma proxyResource_fixes_the_resource_witness :
  let run := proxyResource 3 Scenario.plain_hosts Scenario.healthy Scenario.never_ready 0 "r1"
               Scenario.req in
  head run.2 = Some (GetNodeForResource "r1")
  /\ forall k : string, GetNodeForResource k ∈ run.2 -> k = "r1".
Proof.
  apply (proxyResource_fixes_the_resource 3 Scenario.plain_hosts Scenario.healthy
           Scenario.never_ready 0 "r1" Scenario.req).
  discriminate.
Defined.

(** X9. An attempt that finds its node [Initializing] rejects only when its
    retry count is already above [maxRetry], and then at once, with the
    "maxRetries exceeded" error and without a timer.  Otherwise it sets a
    timer of [requestBackoff] milliseconds, and its promise is never
    rejected and never carries a payload. *)
Theorem proxyRequest_initializing_outcome
    (fuel : nat) (api : UrlPlatform) (client : WreckClient)
    (env : nat -> ProxyService)
    (now : nat) (req : KibanaRequest) (resource : option string)
    (retryCount : Z) (n : RoutingNode) :
  getNodeForResource (clusterDocClient (env now))
    (effective_resource resource (url req)) = Some n ->
  state n = Initializing ->
  let r := effective_resource resource (url req) in
  let warn := LogWarn (still_starting_msg n retryCount (env now)) in
  let run := proxyRequest fuel api client env now req resource retryCount in
  if (retryCount <=? maxRetry (env now))%Z
  then (exists rest,
          run.2 = GetNodeForResource r :: warn
                  :: SetTimeout (requestBackoff (env now)) :: rest)
       /\ (forall msg, run.1 <> Rejected msg)
       /\ (forall v, run.1 = Fulfilled v -> v = VUndefined)
  else run = (Rejected max_retries_msg, [GetNodeForResource r; warn]).
Proof.
  intros Hnode Hst r warn run. subst run r warn.
  rewrite proxyRequest_eq, Hnode, Hst. simpl.
  destruct (_ <=? _)%Z; [|reflexivity].
  destruct fuel as [|fuel]; simpl.
  - repeat split; [eauto | discriminate..].
  - repeat split; [eauto | |]; rewrite after_retry_outcome;
      destruct (proxyRequest fuel api client env (S now) req _ _).1;
      congruence.
Qed.

Lemma proxyRequest_initializing_outcome_witness :
  let r := "r1" in
  let warn := LogWarn "n1 is still starting retry 3/2 in 50" in
  let run := proxyRequest 0 Scenario.plain_hosts Scenario.healthy
               Scenario.never_ready 0
               Scenario.req (Some "r1") 3 in
  run = (Rejected "maxRetries exceeded and node has not yet initialized",
         [GetNodeForResource r; warn]).
Proof.
  apply (proxyRequest_initializing_outcome 0 Scenario.plain_hosts Scenario.healthy
           Scenario.never_ready 0 Scenario.req (Some "r1") 3
           {| node := "n1"; state := Initializing |}).
  - reflexivity.
  - reflexivity.
Defined.

(** ** [proxyRequest]: what happens during a backoff *)

(** X10. A resource that is unassigned while a dispatch waits for its timer
    leaves the caller without an answer: the retried attempt rejects with
    the "No node was found" error inside the timer callback, the rejection
    is unhandled, and the promise of the waiting call never settles. *)
Theorem unassigned_during_backoff_never_settles
    (fuel : nat) (api : UrlPlatform) (client : WreckClient)
    (env : nat -> ProxyService)
    (now : nat) (req : KibanaRequest) (resource : option string)
    (retryCount : Z) (n : RoutingNode) :
  let r := effective_resource resource (url req) in
  getNodeForResource (clusterDocClient (env now)) r = Some n ->
  state n = Initializing ->
  retryCount <= maxRetry (env now) ->
  getNodeForResource (clusterDocClient (env (S now))) r = None ->
  proxyRequest (S fuel) api client env now req resource retryCount
  = (NeverSettles,
     [GetNodeForResource r;
      LogWarn (still_starting_msg n retryCount (env now));
      SetTimeout (requestBackoff (env now));
      GetNodeForResource r;
      LogDebug ("No node was found for resource " ++ r);
      UnhandledRejection ("No node was found for resource " ++ r)]).
Proof.
  intros r Hnode Hst Hle Hnone. subst r.
  apply Z.leb_le in Hle.
  rewrite proxyRequest_eq, Hnode, Hst. simpl. rewrite Hle.
  rewrite proxyRequest_eq, effective_resource_idem, Hnone. reflexivity.
Qed.

Lemma unassigned_during_backoff_never_settles_witness :
  proxyRequest 1 Scenario.plain_hosts Scenario.healthy
    (fun t => match t with
              | O => Scenario.service Scenario.starting
              | S _ => Scenario.service ∅
              end)
    0 Scenario.req (Some "r1") 0
  = (NeverSettles,
     [GetNodeForResource "r1";
      LogWarn "n1 is still starting retry 0/2 in 50";
      SetTimeout 50;
      GetNodeForResource "r1";
      LogDebug "No node was found for resource r1";
      UnhandledRejection "No node was found for resource r1"]).
Proof.
  apply (unassigned_during_backoff_never_settles 0 Scenario.plain_hosts Scenario.healthy
           (fun t => match t with
                     | O => Scenario.service Scenario.starting
                     | S _ => Scenario.service ∅
                     end)
           0 Scenario.req (Some "r1") 0
           {| node := "n1"; state := Initializing |}).
  - reflexivity.
  - reflexivity.
  - simpl. lia.
  - reflexivity.
Defined.

(** X11. The dispatcher resolves the node again after each backoff: when the
    resource has moved to another node, which is ready, by the time the
    timer fires, and the hostname setter of the URL takes the address of
    that node as it is written, the one backend call of the dispatch goes
    to the URL of the request with that address as its host, with the
    method, headers and body of the request. *)
Theorem reassigned_during_backoff_goes_to_new_node
    (fuel : nat) (api : UrlPlatform) (client : WreckClient)
    (env : nat -> ProxyService) (now : nat) (req : KibanaRequest)
    (resource : option string) (retryCount : Z) (n0 n1 : RoutingNode) :
  let r := effective_resource resource (url req) in
  getNodeForResource (clusterDocClient (env now)) r = Some n0 ->
  state n0 = Initializing ->
  retryCount <= maxRetry (env now) ->
  getNodeForResource (clusterDocClient (env (S now))) r = Some n1 ->
  is_Initializing (state n1) = false ->
  parse_hostname api (url req) (node n1) = Some (node n1) ->
  let run :=
    proxyRequest (S fuel) api client env now req resource retryCount in
  (exists rest,
     run.2 = GetNodeForResource r
             :: LogWarn (still_starting_msg n0 retryCount (env now))
             :: SetTimeout (requestBackoff (env now))
             :: GetNodeForResource r
             :: WreckRequest (wreck (env (S now))) (route_method req)
                  (protocol (url req) ++ "//" ++ node n1
                     ++ (if decide (urlport (url req) = "") then ""
                         else ":" ++ urlport (url req))
                     ++ pathname (url req) ++ search (url req)
                     ++ hash (url req))
                  {| opt_headers := headers req; payload := body req |}
             :: rest)
  /\ backend_calls run.2 = 1%nat.
Proof.
  intros r Hn0 Hst Hle Hn1 Hready Hhost run. subst r run.
  apply Z.leb_le in Hle.
  rewrite proxyRequest_eq, Hn0, Hst. simpl. rewrite Hle.
  rewrite proxyRequest_eq, effective_resource_idem, Hn1, Hready.
  unfold forward, assign_hostname. rewrite Hhost.
  destruct (request client _ _ _ _) as [cause|res];
    [|destruct (read client res)];
    simpl; (split; [eexists; reflexivity | reflexivity]).
Qed.

Lemma reassigned_during_backoff_goes_to_new_node_witness :
  let env := fun t : nat =>
    match t with
    | O => Scenario.service Scenario.starting
    | S _ => Scenario.service
               {[ "r1" := {| node := "n2"; state := OtherState "Started" |} ]}
    end in
  let run := proxyRequest 1 Scenario.plain_hosts Scenario.healthy env 0
               Scenario.req (Some "r1") 0 in
  (exists rest,
     run.2 = GetNodeForResource "r1"
             :: LogWarn "n1 is still starting retry 0/2 in 50"
             :: SetTimeout 50
             :: GetNodeForResource "r1"
             :: WreckRequest None "post" "https://n2:5601/r1?pretty"
                  {| opt_headers := [("content-type", "application/json")];
                     payload := VStr "{}" |}
             :: rest)
  /\ backend_calls run.2 = 1%nat.
Proof.
  intros env.
  apply (reassigned_during_backoff_goes_to_new_node 0 Scenario.plain_hosts
           Scenario.healthy env 0 Scenario.req (Some "r1") 0
           {| node := "n1"; state := Initializing |}
           {| node := "n2"; state := OtherState "Started" |}).
  - reflexivity.
  - reflexivity.
  - simpl. lia.
  - reflexivity.
  - reflexivity.
  - reflexivity.
Defined.

(** X12. A transport failure of a retried attempt does not reach the caller:
    the attempt rejects with the "Unable to complete request" error inside
    the timer callback, the rejection is unhandled, and the promise of the
    waiting call never settles. *)
Theorem transport_failure_after_retry_never_settles
    (fuel : nat) (api : UrlPlatform) (client : WreckClient)
    (env : nat -> ProxyService)
    (now : nat) (req : KibanaRequest) (resource : option string)
    (retryCount : Z) (n0 n1 : RoutingNode) (cause : string) :
  let r := effective_resource resource (url req) in
  let target := url_toString (assign_hostname api (url req) (node n1)) in
  let opts := {| opt_headers := headers req; payload := body req |} in
  let msg := "Unable to complete request to " ++ node n1 ++ " for " ++ r
               ++ " because " ++ cause in
  getNodeForResource (clusterDocClient (env now)) r = Some n0 ->
  state n0 = Initializing ->
  retryCount <= maxRetry (env now) ->
  getNodeForResource (clusterDocClient (env (S now))) r = Some n1 ->
  is_Initializing (state n1) = false ->
  request client (wreck (env (S now))) (route_method req) target opts
    = inl cause ->
  proxyRequest (S fuel) api client env now req resource retryCount
  = (NeverSettles,
     [GetNodeForResource r;
      LogWarn (still_starting_msg n0 retryCount (env now));
      SetTimeout (requestBackoff (env now));
      GetNodeForResource r;
      WreckRequest (wreck (env (S now))) (route_method req) target opts;
      LogWarn msg;
      UnhandledRejection msg]).
Proof.
  intros r target opts msg Hn0 Hst Hle Hn1 Hready Hfail.
  subst r target opts msg.
  apply Z.leb_le in Hle.
  rewrite proxyRequest_eq, Hn0, Hst. simpl. rewrite Hle.
  rewrite proxyRequest_eq, effective_resource_idem, Hn1, Hready.
  unfold forward. rewrite Hfail. reflexivity.
Qed.

Lemma transport_failure_after_retry_never_settles_witness :
  proxyRequest 1 Scenario.plain_hosts Scenario.refusing
               Scenario.ready_after_first_wait 0
    Scenario.req (Some "r1") 0
  = (NeverSettles,
     [GetNodeForResource "r1";
      LogWarn "n1 is still starting retry 0/2 in 50";
      SetTimeout 50;
      GetNodeForResource "r1";
      WreckRequest None "post" "https://n1:5601/r1?pretty"
        {| opt_headers := [("content-type", "application/json")];
           payload := VStr "{}" |};
      LogWarn
        "Unable to complete request to n1 for r1 because connect ECONNREFUSED";
      UnhandledRejection
        "Unable to complete request to n1 for r1 because connect ECONNREFUSED"]).
Proof.
  apply (transport_failure_after_retry_never_settles 0 Scenario.plain_hosts Scenario.refusing
           Scenario.ready_after_first_wait 0 Scenario.req (Some "r1") 0
           {| node := "n1"; state := Initializing |}
           {| node := "n1"; state := OtherState "Started" |}
           "connect ECONNREFUSED").
  - reflexivity.
  - reflexivity.
  - simpl. lia.
  - reflexivity.
  - reflexivity.
  - reflexivity.
Defined.

(** ** [configureSSL] and [setup] *)

(** X13. [configureSSL] is all or nothing.  It fails exactly when one of the
    three files cannot be read, and then leaves the service as it was, the
    old [httpsAgent] included.  When it succeeds, the new [httpsAgent] and
    the returned settings carry the contents of the three files, the CA as
    a one-item list; the cipher suites and protocols are those of the
    configuration, HTTP is redirected from the port the service holds, and
    nothing but [httpsAgent] has changed. *)
Theorem configureSSL_all_or_nothing
    (fs : FileSystem) (this : ProxyService) (config : Config.t) :
  match configureSSL fs this config with
  | (inl err, this') =>
      this' = this
      /\ (fs (Config.cert config) = None
          \/ fs (Config.key config) = None
          \/ fs (Config.ca config) = None)
  | (inr ssl, this') =>
      fs (Config.cert config) = Some (certificate ssl)
      /\ fs (Config.key config) = Some (ssl_key ssl)
      /\ (exists tlsCa, fs (Config.ca config) = Some tlsCa
                        /\ certificateAuthorities ssl = [tlsCa])
      /\ httpsAgent this'
         = {| keepAlive := true;
              agent_cert := fs (Config.cert config);
              agent_key := fs (Config.key config);
              agent_ca := fs (Config.ca config) |}
      /\ this' = set_httpsAgent this (httpsAgent this')
      /\ enabled ssl = true
      /\ redirectHttpFromPort ssl = port this
      /\ ssl_cipherSuites ssl = Config.cipherSuites config
      /\ ssl_supportedProtocols ssl = Config.supportedProtocols config
      /\ keyPassphrase ssl = None
  end.
Proof.
  unfold configureSSL.
  destruct (fs (Config.cert config)) as [tlsCert|];
    destruct (fs (Config.key config)) as [tlsKey|];
    destruct (fs (Config.ca config)) as [tlsCa|]; simpl;
    try (split; [reflexivity | auto]).
  repeat split; eauto.
Qed.

(** X14. When one of the three files cannot be read, [setup] rejects after
    it has subscribed and applied the configuration: the subscription stays
    open and the three fields are set, while [httpsAgent] and [wreck] are
    what they were and no server is created.  A [stop()] after the failed
    [setup] closes that subscription. *)
Theorem setup_failure_leaves_subscription
    (fs : FileSystem) (this0 : ProxyService) (config : Config.t) :
  fs (Config.cert config) = None
  \/ fs (Config.key config) = None
  \/ fs (Config.ca config) = None ->
  exists (err : string) (this : ProxyService),
    setup fs this0 config = (inl err, this, [ClusterDocSetup; Subscribe])
    /\ configSubscription this = Some ConfigSubscription
    /\ port this = Config.port config
    /\ maxRetry this = Config.maxRetry config
    /\ requestBackoff this = Config.requestBackoff config
    /\ httpsAgent this = httpsAgent this0
    /\ wreck this = wreck this0
    /\ clusterDocClient this = clusterDocClient this0
    /\ (stop this).2 = [ClusterDocStop; Unsubscribe]
    /\ configSubscription (stop this).1 = None.
Proof.
  intros Hmissing. unfold setup.
  destruct (configureSSL _ _ _) as [[err|ssl] this] eqn:Hssl.
  - unfold configureSSL in Hssl.
    exists err, this.
    destruct (fs (Config.cert config)); destruct (fs (Config.key config));
      destruct (fs (Config.ca config));
      simpl in Hssl;
      try (destruct Hmissing as [?|[?|?]]; discriminate);
      inversion Hssl; subst; repeat split.
  - exfalso. unfold configureSSL in Hssl.
    destruct Hmissing as [H|[H|H]]; rewrite H in Hssl;
      repeat (destruct (fs _)); discriminate.
Qed.

Lemma setup_failure_leaves_subscription_witness :
  exists (err : string) (this : ProxyService),
    setup (fun _ => None) TlsScenario.fresh TlsScenario.configA
    = (inl err, this, [ClusterDocSetup; Subscribe])
    /\ configSubscription this = Some ConfigSubscription
    /\ port this = 5602
    /\ maxRetry this = 2
    /\ requestBackoff this = 50
    /\ httpsAgent this = plainAgent
    /\ wreck this = None
    /\ clusterDocClient this = {| routingTable := ∅ |}
    /\ (stop this).2 = [ClusterDocStop; Unsubscribe]
    /\ configSubscription (stop this).1 = None.
Proof.
  apply (setup_failure_leaves_subscription (fun _ => None) TlsScenario.fresh
           TlsScenario.configA).
  left. reflexivity.
Defined.

(** X15. When the three files can be read, [setup] subscribes, applies the
    configuration, and creates the server on the configured port with TLS
    settings that redirect HTTP from that same port.  The TLS agent of
    [wreck] carries the contents of the three files; the plain agent and the
    agent for unauthorized backends are the ones the service had. *)
Theorem setup_success
    (fs : FileSystem) (this0 : ProxyService) (config : Config.t)
    (tlsCert tlsKey tlsCa : string) :
  fs (Config.cert config) = Some tlsCert ->
  fs (Config.key config) = Some tlsKey ->
  fs (Config.ca config) = Some tlsCa ->
  exists (ssl : SslConfig) (this : ProxyService),
    setup fs this0 config
    = (inr ssl, this,
       [ClusterDocSetup; Subscribe; CreateNewServer (Config.port config) ssl])
    /\ redirectHttpFromPort ssl = Config.port config
    /\ certificate ssl = tlsCert
    /\ ssl_key ssl = tlsKey
    /\ certificateAuthorities ssl = [tlsCa]
    /\ ssl_cipherSuites ssl = Config.cipherSuites config
    /\ ssl_supportedProtocols ssl = Config.supportedProtocols config
    /\ configSubscription this = Some ConfigSubscription
    /\ port this = Config.port config
    /\ maxRetry this = Config.maxRetry config
    /\ requestBackoff this = Config.requestBackoff config
    /\ wreck this
       = Some {| https := {| keepAlive := true; agent_cert := Some tlsCert;
                             agent_key := Some tlsKey;
                             agent_ca := Some tlsCa |};
                 http := httpAgent this0;
                 httpsAllowUnauthorized := allowUnauthAgent this0 |}
    /\ clusterDocClient this = clusterDocClient this0.
Proof.
  intros Hcert Hkey Hca. unfold setup, configureSSL.
  rewrite Hcert, Hkey, Hca. simpl.
  eexists _, _. split; [reflexivity|]. simpl. repeat split.
Qed.

Lemma setup_success_witness :
  exists (ssl : SslConfig) (this : ProxyService),
    setup TlsScenario.fs TlsScenario.fresh TlsScenario.configA
    = (inr ssl, this, [ClusterDocSetup; Subscribe; CreateNewServer 5602 ssl])
    /\ redirectHttpFromPort ssl = 5602
    /\ certificate ssl = "CERT A"
    /\ ssl_key ssl = "KEY A"
    /\ certificateAuthorities ssl = ["CA A"]
    /\ ssl_cipherSuites ssl = ["ECDHE-RSA-AES128-GCM-SHA256"]
    /\ ssl_supportedProtocols ssl = ["TLSv1.1"; "TLSv1.2"]
    /\ configSubscription this = Some ConfigSubscription
    /\ port this = 5602
    /\ maxRetry this = 2
    /\ requestBackoff this = 50
    /\ wreck this
       = Some {| https := {| keepAlive := true; agent_cert := Some "CERT A";
                             agent_key := Some "KEY A";
                             agent_ca := Some "CA A" |};
                 http := plainAgent;
                 httpsAllowUnauthorized := plainAgent |}
    /\ clusterDocClient this = {| routingTable := ∅ |}.
Proof.
  apply (setup_success TlsScenario.fs TlsScenario.fresh TlsScenario.configA
           "CERT A" "KEY A" "CA A"); reflexivity.
Defined.

(** ** The default of [cipherSuites] *)

Lemma rev_app_append (s1 s2 s3 : string) :
  String.rev_app s1 s2 ++ s3 = String.rev_app s1 (s2 ++ s3).
Proof. revert s2. induction s1 as [|a s1 IH]; intros s2; simpl; [done|]. by rewrite IH. Qed.

Lemma split_on_not_nil (sep : ascii) (s cur : string) :
  split_on sep cur s <> [].
Proof.
  revert cur. induction s as [|a s IH]; intros cur; simpl; [done|].
  case_decide; [done | apply IH].
Qed.

(** Joining the pieces with the separator gives the string back. *)
Lemma split_on_concat (sep : ascii) (s : string) :
  forall cur : string,
    String.concat (String sep EmptyString) (split_on sep cur s)
    = String.rev cur ++ s.
Proof.
  induction s as [|a s IH]; intros cur.
  - simpl. unfold String.rev. by rewrite rev_app_append.
  - cbn [split_on]. case_decide as Ha.
    + subst a. specialize (IH EmptyString).
      pose proof (split_on_not_nil sep s EmptyString) as Hnil.
      destruct (split_on sep EmptyString s) as [|p ps] eqn:Hsplit; [done|].
      change (String.concat (String sep EmptyString)
                (String.rev cur :: p :: ps))
        with (String.rev cur ++ String sep EmptyString
                ++ String.concat (String sep EmptyString) (p :: ps)).
      rewrite IH. reflexivity.
    + rewrite IH. unfold String.rev. cbn [String.rev_app].
      by rewrite !rev_app_append.
Qed.

Lemma has_char_rev_app (c : ascii) (s1 s2 : string) :
  has_char c s1 = false -> has_char c s2 = false ->
  has_char c (String.rev_app s1 s2) = false.
Proof.
  revert s2. induction s1 as [|a s1 IH]; intros s2 H1 H2; simpl in *; [done|].
  case_decide; [done|]. apply IH; [done|]. simpl. by rewrite decide_False.
Qed.

(** No piece contains the separator. *)
Lemma split_on_pieces (sep : ascii) (s : string) :
  forall cur : string,
    has_char sep cur = false ->
    Forall (fun piece => has_char sep piece = false) (split_on sep cur s).
Proof.
  induction s as [|a s IH]; intros cur Hcur; simpl.
  - constructor; [|constructor]. by apply has_char_rev_app.
  - case_decide as Ha.
    + constructor; [by apply has_char_rev_app | by apply IH].
    + apply IH. simpl. by rewrite decide_False.
Qed.

(** X16. The default of [cipherSuites] exists exactly when the constants
    object holds a string under the name the source reads,
    [defulatCoreCipherList]: the default is then that string cut at its
    colons, so that no item contains a colon and the items joined by colons
    give the string back.  When the property is missing or is not a string,
    the evaluation throws a [TypeError] instead. *)
Theorem cipherSuites_default_characterised
    (cryptoConstants : gmap string JsVal) :
  match cryptoConstants !! "defulatCoreCipherList" with
  | Some (VStr ciphers) =>
      exists items : list string,
        cipherSuites_default cryptoConstants = inr items
        /\ items <> []
        /\ String.concat ":" items = ciphers
        /\ Forall (fun item => has_char ":"%char item = false) items
  | Some VUndefined | None =>
      cipherSuites_default cryptoConstants
      = inl "TypeError: Cannot read property 'split' of undefined"
  | Some _ =>
      cipherSuites_default cryptoConstants
      = inl "TypeError: split is not a function"
  end.
Proof.
  unfold cipherSuites_default, get_prop.
  destruct (cryptoConstants !! "defulatCoreCipherList") as [[|z|s|b|l]|];
    simpl; try reflexivity.
  exists (split_on ":"%char EmptyString s). repeat split.
  - apply split_on_not_nil.
  - apply (split_on_concat ":"%char s EmptyString).
  - by apply split_on_pieces.
Qed.
